(** * mtg-set-review-bot: the normalisation pipeline of [bot.py]

    A shallow embedding of [load_mtg_set], [generate_prompt] and [main]
    of [src/bot.py], and the properties of the abbreviation pipeline.

    Python strings are sequences of Unicode code points; they are
    modelled as lists of code points so that [str.replace], [str.lower],
    [str.strip] and the two [re.sub] calls of the source can be written
    out character by character. *)

From Stdlib Require Import List NArith ZArith Bool Lia.
From Stdlib Require Import Strings.String Strings.Ascii.
Import ListNotations.

Local Open Scope N_scope.

(** ** Python strings *)

Module PyStr.

Definition char := N.
Definition pystr := list char.

(** An ASCII literal as a Python string. *)
Definition py (s : string) : pystr :=
  List.map N_of_ascii (list_ascii_of_string s).

Definition ch_newline : char := 10.
Definition ch_space : char := 32.
Definition ch_quote : char := 34.
Definition ch_lparen : char := 40.
Definition ch_rparen : char := 41.
Definition ch_pipe : char := 124.
Definition ch_cr : char := 13.
Definition ch_emdash : char := 8212.

Fixpoint eqb (s t : pystr) : bool :=
  match s, t with
  | [], [] => true
  | c :: s', d :: t' => (c =? d) && eqb s' t'
  | _, _ => false
  end.

(** [s.startswith(p)] *)
Fixpoint starts_with (p s : pystr) : bool :=
  match p, s with
  | [], _ => true
  | _ :: _, [] => false
  | c :: p', d :: s' => (c =? d) && starts_with p' s'
  end.

(** [p in s] *)
Fixpoint contains (p s : pystr) : bool :=
  starts_with p s ||
  match s with
  | [] => false
  | _ :: s' => contains p s'
  end.

(** [s.replace(old, new)] for a non-empty [old]: the occurrences of
    [old] are found from the left and do not overlap.  [skip] counts the
    characters of a matched occurrence that are still to be dropped. *)
Fixpoint replace_from (old new s : pystr) (skip : nat) : pystr :=
  match s with
  | [] => []
  | c :: s' =>
      match skip with
      | S k => replace_from old new s' k
      | O =>
          if starts_with old s
          then new ++ replace_from old new s' (List.length old - 1)
          else c :: replace_from old new s' 0
      end
  end.

(** [s.replace(old, new)].  With an empty [old], Python puts [new]
    before every character and at the end. *)
Definition replace (old new s : pystr) : pystr :=
  match old with
  | [] => new ++ flat_map (fun c => c :: new) s
  | _ :: _ => replace_from old new s 0
  end.

(** [str.lower] on the characters the tables are made of: ASCII letters
    are folded, every other character of a key (digits, punctuation, the
    em dash) has no case. *)
Definition lower_char (c : char) : char :=
  if (65 <=? c) && (c <=? 90) then c + 32 else c.

Definition lower (s : pystr) : pystr := List.map lower_char s.

(** [str.isspace] of one character, which is also the class [\s] of a
    [str] pattern. *)
Definition isspace (c : char) : bool :=
  ((9 <=? c) && (c <=? 13)) || ((28 <=? c) && (c <=? 32))
  || (c =? 133) || (c =? 160) || (c =? 5760)
  || ((8192 <=? c) && (c <=? 8202))
  || (c =? 8232) || (c =? 8233) || (c =? 8239) || (c =? 8287)
  || (c =? 12288).

Fixpoint lstrip (s : pystr) : pystr :=
  match s with
  | [] => []
  | c :: s' => if isspace c then lstrip s' else s
  end.

Fixpoint rstrip (s : pystr) : pystr :=
  match s with
  | [] => []
  | c :: s' =>
      match rstrip s' with
      | [] => if isspace c then [] else [c]
      | r => c :: r
      end
  end.

(** [s.strip()] *)
Definition strip (s : pystr) : pystr := rstrip (lstrip s).

(** [re.sub(r'\s+', ' ', s)]: every maximal run of whitespace becomes
    one space.  [in_run] tells that the previous character was
    whitespace, already replaced. *)
Fixpoint sub_spaces_from (in_run : bool) (s : pystr) : pystr :=
  match s with
  | [] => []
  | c :: s' =>
      if isspace c
      then if in_run then sub_spaces_from true s'
           else ch_space :: sub_spaces_from true s'
      else c :: sub_spaces_from false s'
  end.

Definition sub_spaces (s : pystr) : pystr := sub_spaces_from false s.

(** The pattern [\(.*\)] tried just after an opening parenthesis: [.*]
    is greedy and does not cross a newline, so the match ends at the
    last closing parenthesis of the line.  The result is the number of
    characters the match takes after the opening parenthesis. *)
Fixpoint greedy_close (s : pystr) : option nat :=
  match s with
  | [] => None
  | c :: s' =>
      if c =? ch_newline then None
      else match greedy_close s' with
           | Some n => Some (S n)
           | None => if c =? ch_rparen then Some 1%nat else None
           end
  end.

(** [re.sub(r'\(.*\)', '', s)] *)
Fixpoint sub_parens_from (s : pystr) (skip : nat) : pystr :=
  match s with
  | [] => []
  | c :: s' =>
      match skip with
      | S k => sub_parens_from s' k
      | O =>
          if c =? ch_lparen
          then match greedy_close s' with
               | Some n => sub_parens_from s' n
               | None => c :: sub_parens_from s' 0
               end
          else c :: sub_parens_from s' 0
      end
  end.

Definition sub_parens (s : pystr) : pystr := sub_parens_from s 0.

End PyStr.

Import PyStr.

(** ** The abbreviation tables

    Each table is a Python [dict] literal; [.items()] yields the pairs in
    the order of the literal, which the lists below keep. *)

Module Tables.

Definition mapping := list (pystr * pystr).

Definition PROMPT : pystr := py "
You are MTGBot. You have expert level experience with Magic: The Gathering competitive drafting.
You will be generating a very high quality article in the voice of MTG Hall of Famer Reid Duke.
I'm going to give you a list of all the cards of one color from a recent expansion set.
Your task is to parse the data and:
    * determine if it would be viable to play a mono-color deck of that color (be realistic!)
      * remember the typical optimal distribution of card types:
        * 17 lands
        * 15 creatures
        * 8 non-creature spells
      * be willing to bend the typical distribution
    * what the general theme of the deck might be
      * if there are multiple options, mention it
    * some key cards to look for
      * dont just focus on rare and mythic cards
    * interesting combinations of cards
      * look for unexpected synergy that other players might miss and thus will be under-drafted
    * think about cards that are more useful in a mono-color deck
    * dont forget a win condition

Your output should include:
    * a quick brainstorming session based on the cards you just saw
    * once you understand all the cards and how they might work together, write the article
      in the format of a blog post

Good luck, you'll do great!

Your input:
".

Definition SUPER_TYPE_MAPPING : mapping :=
  [ (py "Artifact", py "A");
    (py "Aura", py "A2");
    (py "Creature", py "C");
    (py "Enchantment", py "E");
    (py "Instant", py "I");
    (py "Interrupt", py "I2");
    (py "Land", py "L");
    (py "Legendary", py "L2");
    (py "Planeswalker", py "P");
    (py "Sorcery", py "S") ].

Definition SUB_TYPE_MAPPING : mapping :=
  [ (py "Advisor", py "Ad");
    (py "Angel", py "An");
    (py "Artificer", py "Ar");
    (py "Assassin", py "As");
    (py "Barbarian", py "Ba");
    (py "Beast", py "Be");
    (py "Bird", py "Bi");
    (py "Cleric", py "Cl");
    (py "Construct", py "Co");
    (py "Demon", py "De");
    (py "Dinosaur", py "Di");
    (py "Dragon", py "Dr");
    (py "Dreadnought", py "Dr2");
    (py "Druid", py "Dr3");
    (py "Dwarf", py "Dw");
    (py "Elemental", py "El");
    (py "Equipment", py "Eq");
    (py "Faerie", py "Fa");
    (py "Goblin", py "Go");
    (py "Golem", py "Go2");
    (py "Horror", py "Ho");
    (py "Human", py "Hu");
    (py "Insect", py "In");
    (py "Juggernaut", py "Ju");
    (py "Lizard", py "Li");
    (py "Minotaur", py "Mi");
    (py "Mole", py "Mo");
    (py "Monk", py "Mo2");
    (py "Phyrexian", py "Ph");
    (py "Praetor", py "Pr");
    (py "Rat", py "Ra");
    (py "Scout", py "Sc");
    (py "Shapeshifter", py "Sh");
    (py "Soldier", py "So");
    (py "Thopter", py "Th");
    (py "Wall", py "Wa");
    (py "Warlock", py "Wa2");
    (py "Wizard", py "Wi");
    (py "Wurm", py "Wu");
    (py "Zombie", py "Zo") ].

Definition LAND_MAPPING : mapping :=
  [ (py "Basic", py "BaL");
    (py "Forest", py "FoL");
    (py "Island", py "IsL");
    (py "Mountain", py "MoL");
    (py "Plains", py "PlL");
    (py "Swamp", py "SwL") ].

Definition RARITY_MAPPING : mapping :=
  [ (py "common", py "C");
    (py "uncommon", py "U");
    (py "rare", py "R");
    (py "mythic", py "M") ].

Definition KEYWORD_MAPPING : mapping :=
  [ (py "Deathtouch", py "DTH");
    (py "Flying", py "FLY");
    (py "Haste", py "HST");
    (py "Lifelink", py "LLK");
    (py "Menace", py "MEN");
    (py "Trample", py "TRP");
    (py "Vigilance", py "VIG");
    (py "Exile", py "EXL") ].

Definition NUMBER_MAPPING : mapping :=
  [ (py "One", py "1");
    (py "Two", py "2");
    (py "Three", py "3");
    (py "Four", py "4");
    (py "First", py "1st");
    (py "Second", py "2nd");
    (py "Third", py "3rd") ].

Definition TEXT_MAPPING : mapping :=
  [ ([ch_newline], py " ");
    ([ch_space; ch_emdash; ch_space], [ch_emdash]);
    (py "+1/+1", py "PP");
    (py "At the beginning", py "ATB");
    (py "Combat", py "CBT");
    (py "Counter", py "CT");
    (py "Create", py "CTE");
    (py "Creature", py "CR");
    (py "Destroy target", py "DT");
    (py "Double strike", py "DS");
    (py "Draw a card", py "DAC");
    (py "Enchant creature", py "EC");
    (py "End of turn", py "EOT");
    (py "Enters the battlefield", py "ETB");
    (py "Exile target", py "EXT");
    (py "Leaves the battlefield", py "LTB");
    (py "Mana value", py "MV");
    (py "Permanent", py "PM");
    (py "Player", py "PYR");
    (py "Return target", py "RT");
    (py "Scry", py "SC");
    (py "Search your library", py "SYL");
    (py "Surveil", py "SU");
    (py "Target", py "TR");
    (py "Token", py "TKN");
    (py "Whenever", py "WN");
    (py "You control", py "YC");
    (py "You gain", py "YG") ].

Definition MANA_COST_MAPPING : mapping :=
  [ (py "{", py "");
    (py "}", py "") ].

(** [d[k]]: the value of the first pair with key [k], [None] for a
    [KeyError]. *)
Fixpoint lookup (k : pystr) (d : mapping) : option pystr :=
  match d with
  | [] => None
  | (k', v) :: d' => if PyStr.eqb k k' then Some v else lookup k d'
  end.

End Tables.

Import Tables.

(** ** The program *)

Module Bot.

(** A column value that is carried along and never looked at. *)
Inductive value :=
| VNone
| VInt (n : Z)
| VReal (num den : Z)
| VStr (s : pystr).

(** One card: the dictionary appended to [cards], and also the variables
    of one turn of the card loop of [load_mtg_set] when the type line,
    the name, the rarity and the rules text are strings, as the loop
    needs them to be; the module [Sql] below has the rows with NULL
    columns.  [card_type] is the key ['type']. *)
Record card := mk_card {
  artist : value;
  card_type : pystr;
  colors : option pystr;
  flavor_text : value;
  is_full_art : value;
  is_reprint : value;
  mana_cost : option pystr;
  mana_value : value;
  name : pystr;
  number : value;
  original_release_date : value;
  power : option pystr;
  rarity : pystr;
  text : pystr;
  toughness : option pystr
}.

(** The dictionary [set_data]. *)
Record set_record := mk_set {
  set_name : option pystr;
  release : option pystr;
  set_type : option pystr
}.

(** The two tables of the database that the queries read, rows in the
    order in which the engine yields them. *)
Record sets_row := mk_sets_row {
  code : pystr;
  sets_name : option pystr;
  releaseDate : option pystr;
  sets_type : option pystr
}.

Record cards_row := mk_cards_row {
  setCode : pystr;
  columns : card
}.

Record database := mk_database {
  sets : list sets_row;
  cards : list cards_row
}.

(** Exceptions that the program lets escape: [KeyError] with its key
    ([KeyErrorNone] when the key is [None]), [AttributeError] with the
    attribute that [None] does not have, [TypeError] of a [None]
    argument, [UnboundLocalError] with the variable. *)
Inductive error :=
| KeyError (key : pystr)
| KeyErrorNone
| AttributeError (attribute : pystr)
| TypeError
| UnboundLocalError (variable : pystr).

Inductive result (A : Type) :=
| Ok (a : A)
| Raise (e : error).

Arguments Ok {A} a.
Arguments Raise {A} e.

Definition bind {A B} (m : result A) (k : A -> result B) : result B :=
  match m with
  | Ok a => k a
  | Raise e => Raise e
  end.

Notation "x <- m ;; k" := (bind m (fun x => k))
  (at level 61, m at next level, right associativity).

(** [for from_str, to_str in d.items(): v = body(from_str, to_str, v)] *)
Definition for_items (d : mapping)
    (body : pystr -> pystr -> pystr -> pystr) (v : pystr) : pystr :=
  fold_left (fun acc kv => body (fst kv) (snd kv) acc) d v.

(** The body of the loops over the type line and the rules text:
<<
    v = v.replace(from_str, to_str)
    v = v.replace(from_str.lower(), to_str)
>> *)
Definition replace_both (from_str to_str v : pystr) : pystr :=
  let v := replace from_str to_str v in
  replace (lower from_str) to_str v.

(** The body of the loops over the braces and over the name:
<<
    v = v.replace(from_str, to_str)
>> *)
Definition replace_exact (from_str to_str v : pystr) : pystr :=
  replace from_str to_str v.

(** The statements of the card loop that rewrite [card_type]. *)
Definition normalize_type (card_type : pystr) : pystr :=
  let card_type := for_items SUPER_TYPE_MAPPING replace_both card_type in
  let card_type := for_items SUB_TYPE_MAPPING replace_both card_type in
  let card_type := for_items LAND_MAPPING replace_both card_type in
  card_type.

(** The statements of the card loop that rewrite [text], up to the one
    that puts the placeholder; [name] is the name as selected, the loop
    rewrites it only afterwards. *)
Definition text_with_placeholder (name text : pystr) : pystr :=
  let text := for_items TEXT_MAPPING replace_both text in
  let text := for_items SUPER_TYPE_MAPPING replace_both text in
  let text := for_items SUB_TYPE_MAPPING replace_both text in
  let text := for_items LAND_MAPPING replace_both text in
  let text := for_items KEYWORD_MAPPING replace_both text in
  let text := for_items NUMBER_MAPPING replace_both text in
  let text := for_items MANA_COST_MAPPING replace_exact text in
  let text := sub_parens text in
  let text := replace name (py "NAME") text in
  text.

(** All the statements that rewrite [text]: the last one cleans up the
    whitespace. *)
Definition normalize_text (name text : pystr) : pystr :=
  let text := text_with_placeholder name text in
  let text := sub_spaces (strip text) in
  text.

Definition normalize_name (name : pystr) : pystr :=
  for_items LAND_MAPPING replace_exact name.

Definition normalize_rarity (rarity : pystr) : result pystr :=
  match lookup rarity RARITY_MAPPING with
  | Some r => Ok r
  | None => Raise (KeyError rarity)
  end.

(** [if mana_cost:] is false for [None] and for the empty string. *)
Definition normalize_mana_cost (mana_cost : option pystr) : option pystr :=
  match mana_cost with
  | Some ((_ :: _) as m) =>
      Some (for_items MANA_COST_MAPPING replace_exact m)
  | _ => mana_cost
  end.

(** One turn of the card loop on strings: the dictionary that is
    appended, or the lookup error of the rarity. *)
Definition normalize_card (row : card) : result card :=
  let card_type := normalize_type (card_type row) in
  let text := normalize_text (name row) (text row) in
  let name := normalize_name (name row) in
  rarity <- normalize_rarity (rarity row) ;;
  let mana_cost := normalize_mana_cost (mana_cost row) in
  Ok {| artist := artist row;
        card_type := card_type;
        colors := colors row;
        flavor_text := flavor_text row;
        is_full_art := is_full_art row;
        is_reprint := is_reprint row;
        mana_cost := mana_cost;
        mana_value := mana_value row;
        name := name;
        number := number row;
        original_release_date := original_release_date row;
        power := power row;
        rarity := rarity;
        text := text;
        toughness := toughness row |}.

(** [SELECT name, releaseDate, type FROM sets WHERE code = ? LIMIT 1] *)
Definition select_set (db : database) (set_code : pystr) : list sets_row :=
  firstn 1 (filter (fun r => PyStr.eqb (code r) set_code) (sets db)).

(** [SELECT ... FROM cards WHERE setCode = ? AND (colors = 'U')]; a
    comparison with [NULL] is not true. *)
Definition select_cards (db : database) (set_code : pystr) : list card :=
  List.map columns
    (filter (fun r =>
               PyStr.eqb (setCode r) set_code &&
               match colors (columns r) with
               | Some c => PyStr.eqb c (py "U")
               | None => false
               end)
            (cards db)).

(** The card loop: [cards] grows by one dictionary per row, and an
    exception leaves the loop. *)
Fixpoint card_loop (rows : list card) (cards : list card)
    : result (list card) :=
  match rows with
  | [] => Ok cards
  | row :: rows' =>
      c <- normalize_card row ;;
      card_loop rows' (cards ++ [c])
  end.

(** [load_mtg_set]: [set_data] is bound only by a turn of the first
    loop, and is read by the [return]. *)
Definition load_mtg_set (db : database) (set_code : pystr)
    : result (set_record * list card) :=
  let set_data :=
    fold_left
      (fun _ r => Some {| set_name := sets_name r;
                          release := releaseDate r;
                          set_type := sets_type r |})
      (select_set db set_code) None in
  cards <- card_loop (select_cards db set_code) [] ;;
  match set_data with
  | Some set_data => Ok (set_data, cards)
  | None => Raise (UnboundLocalError (py "set_data"))
  end.

(** *** Serialisation: [csv.DictWriter] with [delimiter='|'],
    [lineterminator="\n"] and the default minimal quoting: a field is
    quoted when it holds the delimiter, the quote character or a
    character of the line terminator. *)

Definition is_special (c : char) : bool :=
  (c =? ch_pipe) || (c =? ch_quote) || (c =? ch_newline).

Definition csv_field (f : pystr) : pystr :=
  if existsb is_special f
  then ch_quote ::
       flat_map (fun c => if c =? ch_quote then [ch_quote; ch_quote] else [c]) f
       ++ [ch_quote]
  else f.

Fixpoint join (sep : pystr) (l : list pystr) : pystr :=
  match l with
  | [] => []
  | [f] => f
  | f :: l' => f ++ sep ++ join sep l'
  end.

Definition writerow (fields : list pystr) : pystr :=
  join [ch_pipe] (List.map csv_field fields) ++ [ch_newline].

(** [None] is written as the empty string. *)
Definition cell (v : option pystr) : pystr :=
  match v with
  | Some s => s
  | None => []
  end.

Definition explain_set (set_data : set_record) : pystr :=
  writerow [py "name"; py "release"; py "type"]
  ++ writerow [cell (set_name set_data); cell (release set_data);
               cell (set_type set_data)].

Definition card_fields (c : card) : list pystr :=
  [card_type c; cell (mana_cost c); name c; cell (power c);
   cell (toughness c); rarity c; text c].

Definition explain_cards (cards : list card) : pystr :=
  writerow [py "type"; py "mana_cost"; py "name"; py "power";
            py "toughness"; py "rarity"; py "text"]
  ++ flat_map (fun c => writerow (card_fields c)) cards.

Definition generate_prompt (set_data : set_record) (cards : list card)
    : pystr :=
  let set_explanation := explain_set set_data in
  let cards_explanation := explain_cards cards in
  set_explanation ++ cards_explanation.

Definition get_api_key (environ : mapping) : result pystr :=
  match lookup (py "MTG_BOT_OPENAI_API_KEY") environ with
  | Some k => Ok k
  | None => Raise (KeyError (py "MTG_BOT_OPENAI_API_KEY"))
  end.

(** [main]: the result is the text given to [print]; nothing is printed
    when an exception escapes. *)
Definition main (environ : mapping) (db : database) (set_code : pystr)
    : result pystr :=
  _ <- get_api_key environ ;;
  sc <- load_mtg_set db set_code ;;
  let gpt_prompt := generate_prompt (fst sc) (snd sc) in
  Ok gpt_prompt.

End Bot.

Import Bot.

(** ** The specification's reading of the pipeline

    The passes and the stages are defined after the words of the
    specification, to be compared with the loops of [load_mtg_set]; the
    predicates that follow them are those the statements need. *)

Module Spec.

(** A literal substitution pass is a pattern and its replacement; the
    passes of a list are made one after the other. *)
Fixpoint substitute_all (passes : list (pystr * pystr)) (s : pystr)
    : pystr :=
  match passes with
  | [] => s
  | (pattern, replacement) :: rest =>
      substitute_all rest (replace pattern replacement s)
  end.

(** Two passes per pair: the exact-case pattern, then its all-lowercase
    variant, with the same code. *)
Definition two_passes (d : mapping) : list (pystr * pystr) :=
  flat_map (fun '(pattern, replacement) =>
              [(pattern, replacement); (lower pattern, replacement)]) d.

Definition two_pass (d : mapping) (s : pystr) : pystr :=
  substitute_all (two_passes d) s.

(** One pass per pair: the exact-case pattern only. *)
Definition one_pass (d : mapping) (s : pystr) : pystr :=
  substitute_all d s.

(** The stages that the specification orders. *)
Inductive stage :=
| Phrase | Supertype | Subtype | Land | Keyword | Number | ManaSymbol
| Reminder | NamePlaceholder | Whitespace.

Definition run_stage (name : pystr) (st : stage) (s : pystr) : pystr :=
  match st with
  | Phrase => two_pass TEXT_MAPPING s
  | Supertype => two_pass SUPER_TYPE_MAPPING s
  | Subtype => two_pass SUB_TYPE_MAPPING s
  | Land => two_pass LAND_MAPPING s
  | Keyword => two_pass KEYWORD_MAPPING s
  | Number => two_pass NUMBER_MAPPING s
  | ManaSymbol => two_pass MANA_COST_MAPPING s
  | Reminder => sub_parens s
  | NamePlaceholder => replace name (py "NAME") s
  | Whitespace => sub_spaces (strip s)
  end.

Definition run_stages (name : pystr) (order : list stage) (s : pystr)
    : pystr :=
  fold_left (fun acc st => run_stage name st acc) order s.

Definition text_order : list stage :=
  [Phrase; Supertype; Subtype; Land; Keyword; Number; ManaSymbol;
   Reminder; NamePlaceholder; Whitespace].

Definition type_order : list stage := [Supertype; Subtype; Land].

(** The four recognized rarities. *)
Definition recognized (rarity : pystr) : Prop :=
  rarity = py "common" \/ rarity = py "uncommon" \/
  rarity = py "rare" \/ rarity = py "mythic".

(** Every pair of every table, and the test that no key, as written or
    in lowercase, occurs in a code. *)
Definition all_pairs : list (pystr * pystr) :=
  TEXT_MAPPING ++ SUPER_TYPE_MAPPING ++ SUB_TYPE_MAPPING ++ LAND_MAPPING
  ++ KEYWORD_MAPPING ++ NUMBER_MAPPING ++ MANA_COST_MAPPING
  ++ RARITY_MAPPING.

Definition key_in_code (key code : pystr) : bool :=
  contains key code || contains (lower key) code.

Definition codes_free_of_keys : bool :=
  forallb (fun kv =>
             forallb (fun kv' => negb (key_in_code (fst kv) (snd kv')))
                     all_pairs)
          all_pairs.

(** A name that cannot overlap the placeholder: it is not empty, its
    first character is none of [N], [A], [M], [E], and it has no [N]. *)
Definition clear_of_placeholder (name : pystr) : bool :=
  match name with
  | [] => false
  | c :: _ =>
      negb (existsb (N.eqb c) (py "NAME")) && negb (existsb (N.eqb 78) name)
  end.

(** A name none of whose characters is whitespace. *)
Definition no_space (s : pystr) : bool :=
  forallb (fun c => negb (isspace c)) s.

(** No key of the table occurs in the string, in the case of the
    table. *)
Definition free_of_keys (d : mapping) (s : pystr) : bool :=
  forallb (fun kv => negb (contains (fst kv) s)) d.

(** Every code of the table is shorter than its key. *)
Definition shrinking (d : mapping) : bool :=
  forallb (fun kv => (List.length (snd kv) <? List.length (fst kv))%nat) d.

(** The colour that the query asks for. *)
Definition is_blue (c : card) : Prop := colors c = Some (py "U").

End Spec.

Import Spec.

(** ** Cards and databases used as examples *)

Module Examples.

Definition blue (name type : pystr) (mana_cost power toughness : option pystr)
    (rarity text : pystr) : card :=
  {| artist := VNone;
     card_type := type;
     colors := Some (py "U");
     flavor_text := VNone;
     is_full_art := VInt 0;
     is_reprint := VInt 0;
     mana_cost := mana_cost;
     mana_value := VNone;
     name := name;
     number := VNone;
     original_release_date := VNone;
     power := power;
     rarity := rarity;
     text := text;
     toughness := toughness |}.

Definition opt : card :=
  blue (py "Opt") (py "Instant") (Some (py "{U}")) None None (py "common")
       (py "Scry 1." ++ [ch_newline] ++ py "Draw a card.").

(** Two reminder texts with rules text between them and after them. *)
Definition sentinel_text : pystr :=
  py "Flying (It can't be blocked except by creatures with flying or reach.)"
  ++ [ch_newline]
  ++ py "Vigilance (Attacking doesn't cause it to tap.)"
  ++ [ch_newline]
  ++ py "Draw a card.".

Definition sentinel : card :=
  blue (py "Azure Sentinel")
       (py "Creature " ++ [ch_emdash] ++ py " Bird Soldier")
       (Some (py "{3}{U}")) (Some (py "2")) (Some (py "3")) (py "uncommon")
       sentinel_text.

Definition tide_pool : card :=
  blue (py "Tide Pool")
       (py "Creature " ++ [ch_emdash] ++ py " Merfolk Wizard")
       (Some (py "{2}{U}{U}")) (Some (py "2")) (Some (py "2")) (py "rare")
       (py "Whenever Tide  Pool attacks, draw a card.").

Definition jasconius : card :=
  blue (py "Island Fish Jasconius")
       (py "Creature " ++ [ch_emdash] ++ py " Fish")
       (Some (py "{4}{U}{U}{U}")) (Some (py "6")) (Some (py "8")) (py "rare")
       (py "Island Fish Jasconius doesn't untap during your untap step.").

Definition forest : card :=
  {| artist := VNone;
     card_type := py "Basic Land " ++ [ch_emdash] ++ py " Forest";
     colors := None;
     flavor_text := VNone;
     is_full_art := VInt 0;
     is_reprint := VInt 1;
     mana_cost := None;
     mana_value := VNone;
     name := py "Forest";
     number := VNone;
     original_release_date := VNone;
     power := None;
     rarity := py "common";
     text := py "({T}: Add {G}.)";
     toughness := None |}.

Definition dmu : sets_row :=
  {| code := py "DMU";
     sets_name := Some (py "Dominaria United");
     releaseDate := Some (py "2022-09-09");
     sets_type := Some (py "expansion") |}.

Definition in_set (set_code : pystr) (c : card) : cards_row :=
  {| setCode := set_code; columns := c |}.

Definition environ : mapping := [(py "MTG_BOT_OPENAI_API_KEY", py "sk-test")].

(** A database with the set and two cards of it, one of them blue. *)
Definition db : database :=
  {| sets := [dmu];
     cards := [in_set (py "DMU") opt; in_set (py "DMU") forest] |}.

(** The same cards, and no row for the set. *)
Definition db_without_set : database :=
  {| sets := [];
     cards := [in_set (py "DMU") opt; in_set (py "DMU") forest] |}.

(** A card of a rarity outside the table, and a database with it. *)
Definition timeshifted : card :=
  blue (py "Psionic Blast") (py "Instant") (Some (py "{2}{U}")) None None
       (py "special")
       (py "Psionic Blast deals 4 damage to any target and 2 damage to you.").

Definition db_special : database :=
  {| sets := [dmu];
     cards := [in_set (py "DMU") opt; in_set (py "DMU") timeshifted] |}.

(** A database with a creature that is no basic land and has the name
    of one in its own. *)
Definition db_jasconius : database :=
  {| sets := [dmu]; cards := [in_set (py "DMU") jasconius] |}.

End Examples.

(** ** Shapes of strings and of cards

    The predicates in which the further properties of the pipeline are
    stated. *)

Module Shape.

Definition ch_lbrace : char := 123.
Definition ch_rbrace : char := 125.

Definition is_brace (c : char) : bool := (c =? ch_lbrace) || (c =? ch_rbrace).

(** The string without its braces, the other characters in their order. *)
Definition without_braces (s : pystr) : pystr :=
  filter (fun c => negb (is_brace c)) s.

(** An opening parenthesis with a closing one somewhere after it. *)
Fixpoint has_span (s : pystr) : bool :=
  match s with
  | [] => false
  | c :: s' =>
      ((c =? ch_lparen) && existsb (N.eqb ch_rparen) s') || has_span s'
  end.

(** Two characters of whitespace side by side. *)
Fixpoint adjacent_spaces (s : pystr) : bool :=
  match s with
  | [] => false
  | c :: s' =>
      match s' with
      | [] => false
      | d :: _ => (isspace c && isspace d) || adjacent_spaces s'
      end
  end.

(** The first character, if any, is no whitespace. *)
Definition head_ok (s : pystr) : bool :=
  match s with
  | [] => true
  | c :: _ => negb (isspace c)
  end.

(** The characters that the last statements over [text] can put into
    it: those of the placeholder and the space. *)
Definition inserted (c : char) : bool := existsb (N.eqb c) (py "NAME ").

(** [trims s r]: [r] is [s] with characters dropped and characters of
    the placeholder or spaces put in. *)
Inductive trims : pystr -> pystr -> Prop :=
| trims_nil : trims [] []
| trims_keep c s r : trims s r -> trims (c :: s) (c :: r)
| trims_drop c s r : trims s r -> trims (c :: s) r
| trims_put c s r : inserted c = true -> trims s r -> trims s (c :: r).

(** The statements of the card loop over [text] up to the removal of
    the reminder text (the placeholder comes next). *)
Definition text_without_reminders (text : pystr) : pystr :=
  let text := for_items TEXT_MAPPING replace_both text in
  let text := for_items SUPER_TYPE_MAPPING replace_both text in
  let text := for_items SUB_TYPE_MAPPING replace_both text in
  let text := for_items LAND_MAPPING replace_both text in
  let text := for_items KEYWORD_MAPPING replace_both text in
  let text := for_items NUMBER_MAPPING replace_both text in
  let text := for_items MANA_COST_MAPPING replace_exact text in
  let text := sub_parens text in
  text.

(** The last statement over [text]: [re.sub(r'\s+', ' ', text.strip())]. *)
Definition cleanup (s : pystr) : pystr := sub_spaces (strip s).

(** No code of the table holds the character. *)
Definition codes_lack (c : char) (d : mapping) : bool :=
  forallb (fun kv => negb (existsb (N.eqb c) (snd kv))) d.

(** No key of the table is empty and no code is longer than its key. *)
Definition compressing (d : mapping) : bool :=
  forallb (fun kv =>
             (List.length (snd kv) <=? List.length (fst kv))%nat
             && negb (List.length (fst kv) =? 0)%nat) d.

(** The columns that the card loop copies. *)
Definition untouched (row c : card) : Prop :=
  artist c = artist row /\ colors c = colors row
  /\ flavor_text c = flavor_text row /\ is_full_art c = is_full_art row
  /\ is_reprint c = is_reprint row /\ mana_value c = mana_value row
  /\ number c = number row
  /\ original_release_date c = original_release_date row
  /\ power c = power row /\ toughness c = toughness row.

(** The columns that the card loop rewrites. *)
Definition rewritten (row c : card) : Prop :=
  card_type c = normalize_type (card_type row)
  /\ text c = normalize_text (name row) (text row)
  /\ name c = normalize_name (name row)
  /\ normalize_rarity (rarity row) = Ok (rarity c)
  /\ mana_cost c = normalize_mana_cost (mana_cost row).

Definition rarity_code (r : pystr) : Prop :=
  r = py "C" \/ r = py "U" \/ r = py "R" \/ r = py "M".

Definition no_brace (s : pystr) : Prop :=
  ~ In ch_lbrace s /\ ~ In ch_rbrace s.

(** What holds of every card that [load_mtg_set] returns. *)
Definition well_formed (c : card) : Prop :=
  colors c = Some (py "U")
  /\ rarity_code (rarity c)
  /\ no_brace (text c)
  /\ (forall m, mana_cost c = Some m -> no_brace m)
  /\ has_span (text c) = false
  /\ cleanup (text c) = text c.

End Shape.

Import Shape.

(** ** Further examples *)

Module MoreExamples.

(** No row for the set, and a card of an unknown rarity after a card of
    a known one. *)
Definition db_special_without_set : database :=
  {| sets := [];
     cards := [Examples.in_set (py "DMU") Examples.opt;
               Examples.in_set (py "DMU") Examples.timeshifted;
               Examples.in_set (py "DMU") Examples.opt] |}.

(** Two rows for the same set code. *)
Definition dmu_again : sets_row :=
  {| code := py "DMU";
     sets_name := Some (py "Dominaria United Commander");
     releaseDate := None;
     sets_type := Some (py "commander") |}.

Definition db_two_sets : database :=
  {| sets := [Examples.dmu; dmu_again];
     cards := [Examples.in_set (py "DMU") Examples.opt;
               Examples.in_set (py "BRO") Examples.sentinel;
               Examples.in_set (py "DMU") Examples.forest;
               Examples.in_set (py "DMU") Examples.jasconius] |}.

(** A card whose name holds a key of the Subtype table. *)
Definition wall_of_frost : card :=
  Examples.blue (py "Wall of Frost")
    (py "Creature " ++ [ch_emdash] ++ py " Wall")
    (Some (py "{1}{U}{U}")) (Some (py "0")) (Some (py "7")) (py "uncommon")
    (py "Defender" ++ [ch_newline]
     ++ py "Whenever Wall of Frost blocks a creature, tap it.").

End MoreExamples.

(** ** The rows as the database yields them

    [Bot.normalize_card] is the body of the card loop on a row whose
    type line, name, rarity and rules text are strings.  A column of the
    database can also be NULL, which [sqlite3] yields as [None]; this
    module binds the columns as the cursor yields them and runs the card
    loop, [load_mtg_set] and [main] on them. *)

Module Sql.

(** One row of the card query, under the names of its [SELECT] list. *)
Record row := mk_row {
  col_artist : value;
  col_type : option pystr;
  col_colors : option pystr;
  col_flavorText : value;
  col_isFullArt : value;
  col_isReprint : value;
  col_manaCost : option pystr;
  col_manaValue : value;
  col_name : option pystr;
  col_number : value;
  col_originalReleaseDate : value;
  col_power : option pystr;
  col_rarity : option pystr;
  col_text : option pystr;
  col_toughness : option pystr
}.

Record cards_row := mk_cards_row {
  setCode : option pystr;
  columns : row
}.

Record database := mk_database {
  sets : list sets_row;
  cards : list cards_row
}.

(** The variables of one turn of the card loop, once the four columns
    that the loop calls methods on are known to be strings. *)
Definition bound (r : row) (card_type name rarity text : pystr) : card :=
  {| artist := col_artist r;
     card_type := card_type;
     colors := col_colors r;
     flavor_text := col_flavorText r;
     is_full_art := col_isFullArt r;
     is_reprint := col_isReprint r;
     mana_cost := col_manaCost r;
     mana_value := col_manaValue r;
     name := name;
     number := col_number r;
     original_release_date := col_originalReleaseDate r;
     power := col_power r;
     rarity := rarity;
     text := text;
     toughness := col_toughness r |}.

(** One turn of the card loop.  [card_type.replace] (line 268) and
    [text.replace] (line 283) raise [AttributeError] on [None];
    [text.replace(name, 'NAME')] (line 319) raises [TypeError] when
    [name] is [None]; [RARITY_MAPPING[None]] (line 329) raises
    [KeyError]. *)
Definition normalize_row (r : row) : result card :=
  match col_type r with
  | None => Raise (AttributeError (py "replace"))
  | Some card_type =>
      match col_text r with
      | None => Raise (AttributeError (py "replace"))
      | Some text =>
          match col_name r with
          | None => Raise TypeError
          | Some name =>
              match col_rarity r with
              | None => Raise KeyErrorNone
              | Some rarity =>
                  normalize_card (bound r card_type name rarity text)
              end
          end
      end
  end.

(** [SELECT name, releaseDate, type FROM sets WHERE code = ? LIMIT 1] *)
Definition select_set (db : database) (set_code : pystr) : list sets_row :=
  firstn 1 (filter (fun r => PyStr.eqb (code r) set_code) (sets db)).

(** [SELECT ... FROM cards WHERE setCode = ? AND (colors = 'U')]; a
    comparison with [NULL] is not true. *)
Definition select_cards (db : database) (set_code : pystr) : list row :=
  List.map columns
    (filter (fun r =>
               match setCode r with
               | Some c => PyStr.eqb c set_code
               | None => false
               end &&
               match col_colors (columns r) with
               | Some c => PyStr.eqb c (py "U")
               | None => false
               end)
            (cards db)).

Fixpoint card_loop (rows : list row) (cards : list card)
    : result (list card) :=
  match rows with
  | [] => Ok cards
  | r :: rows' =>
      c <- normalize_row r ;;
      card_loop rows' (cards ++ [c])
  end.

Definition load_mtg_set (db : database) (set_code : pystr)
    : result (set_record * list card) :=
  let set_data :=
    fold_left
      (fun _ r => Some {| set_name := sets_name r;
                          release := releaseDate r;
                          set_type := sets_type r |})
      (select_set db set_code) None in
  cards <- card_loop (select_cards db set_code) [] ;;
  match set_data with
  | Some set_data => Ok (set_data, cards)
  | None => Raise (UnboundLocalError (py "set_data"))
  end.

Definition main (environ : mapping) (db : database) (set_code : pystr)
    : result pystr :=
  _ <- get_api_key environ ;;
  sc <- load_mtg_set db set_code ;;
  let gpt_prompt := generate_prompt (fst sc) (snd sc) in
  Ok gpt_prompt.

(** A row whose four columns are strings, and a database of such
    rows. *)
Definition of_card (c : card) : row :=
  {| col_artist := artist c;
     col_type := Some (card_type c);
     col_colors := colors c;
     col_flavorText := flavor_text c;
     col_isFullArt := is_full_art c;
     col_isReprint := is_reprint c;
     col_manaCost := mana_cost c;
     col_manaValue := mana_value c;
     col_name := Some (name c);
     col_number := number c;
     col_originalReleaseDate := original_release_date c;
     col_power := power c;
     col_rarity := Some (rarity c);
     col_text := Some (text c);
     col_toughness := toughness c |}.

Definition of_database (db : Bot.database) : database :=
  {| sets := Bot.sets db;
     cards := List.map (fun r => {| setCode := Some (Bot.setCode r);
                                    columns := of_card (Bot.columns r) |})
                       (Bot.cards db) |}.

(** The type line, the rules text and the name are there. *)
Definition present (r : row) : Prop :=
  col_type r <> None /\ col_text r <> None /\ col_name r <> None.

(** The row has one of the four rarities. *)
Definition known_rarity (r : row) : Prop :=
  exists x, col_rarity r = Some x /\ recognized x.

(** The exception of one turn of the card loop, column by column in the
    order in which the loop comes to them. *)
Definition row_exception (r : row) : option error :=
  match col_type r, col_text r, col_name r, col_rarity r with
  | None, _, _, _ => Some (AttributeError (py "replace"))
  | Some _, None, _, _ => Some (AttributeError (py "replace"))
  | Some _, Some _, None, _ => Some TypeError
  | Some _, Some _, Some _, None => Some KeyErrorNone
  | Some _, Some _, Some _, Some x =>
      match lookup x RARITY_MAPPING with
      | Some _ => None
      | None => Some (KeyError x)
      end
  end.

(** *** Example rows *)

Definition in_set (set_code : pystr) (r : row) : cards_row :=
  {| setCode := Some set_code; columns := r |}.

(** A creature without rules text: the column is NULL. *)
Definition vanilla (rarity : pystr) : row :=
  {| col_artist := VNone;
     col_type := Some (py "Creature " ++ [ch_emdash] ++ py " Crab");
     col_colors := Some (py "U");
     col_flavorText := VNone;
     col_isFullArt := VInt 0;
     col_isReprint := VInt 0;
     col_manaCost := Some (py "{2}{U}");
     col_manaValue := VNone;
     col_name := Some (py "Giant Crab");
     col_number := VNone;
     col_originalReleaseDate := VNone;
     col_power := Some (py "1");
     col_rarity := Some rarity;
     col_text := None;
     col_toughness := Some (py "5") |}.

Definition db_vanilla_special : database :=
  {| sets := [Examples.dmu];
     cards := [in_set (py "DMU") (vanilla (py "special"))] |}.

Definition db_special : database :=
  {| sets := [Examples.dmu];
     cards := [in_set (py "DMU") (of_card Examples.opt);
               in_set (py "DMU") (of_card Examples.timeshifted)] |}.

Definition db_special_without_set : database :=
  {| sets := [];
     cards := [in_set (py "DMU") (of_card Examples.opt);
               in_set (py "DMU") (of_card Examples.timeshifted);
               in_set (py "DMU") (vanilla (py "common"))] |}.

Definition db_without_set : database :=
  {| sets := [];
     cards := [in_set (py "DMU") (of_card Examples.opt);
               in_set (py "DMU") (of_card Examples.forest)] |}.

Definition db_vanilla_without_set : database :=
  {| sets := [];
     cards := [in_set (py "DMU") (of_card Examples.opt);
               in_set (py "DMU") (vanilla (py "common"))] |}.

End Sql.

(** ** Overlaps, loose occurrences and keys

    The predicates of the statements on the placeholder and on a second
    run of the rewriting. *)

Module Words.

(** The non-empty suffixes of a string. *)
Fixpoint tails (s : pystr) : list pystr :=
  match s with
  | [] => []
  | _ :: s' => s :: tails s'
  end.

(** One of the two strings begins the other. *)
Definition compat (u v : pystr) : bool :=
  starts_with u v || starts_with v u.

(** [old] and [new] can overlap: a copy of [old] can begin inside a copy
    of [new], or run into one. *)
Definition overlaps (old new : pystr) : bool :=
  existsb (fun v => compat old v) (tails new)
  || existsb (fun w => compat w new) (tails old).

(** [p] at the head of [s], a space of [p] standing for a run of
    whitespace of [s]; [in_run] tells that such a run is being read. *)
Fixpoint loose_prefix (p : pystr) (in_run : bool) (s : pystr) : bool :=
  match p with
  | [] => true
  | c :: p' =>
      match s with
      | [] => false
      | d :: s' =>
          if in_run && isspace d then loose_prefix p true s'
          else if c =? ch_space then isspace d && loose_prefix p' true s'
          else (c =? d) && loose_prefix p' false s'
      end
  end.

(** [p] occurs in [s], written as it is or with wider whitespace. *)
Fixpoint loose_contains (p s : pystr) : bool :=
  loose_prefix p false s ||
  match s with
  | [] => false
  | _ :: s' => loose_contains p s'
  end.

(** No key of the table occurs in the string, as written or in
    lowercase. *)
Definition free_of_keys2 (d : mapping) (s : pystr) : bool :=
  forallb (fun kv => negb (contains (fst kv) s)
                     && negb (contains (lower (fst kv)) s)) d.

(** The tables of the loops over the type line, and of the loops over
    the rules text before the braces. *)
Definition type_tables : mapping :=
  SUPER_TYPE_MAPPING ++ SUB_TYPE_MAPPING ++ LAND_MAPPING.

Definition text_tables : mapping :=
  TEXT_MAPPING ++ SUPER_TYPE_MAPPING ++ SUB_TYPE_MAPPING ++ LAND_MAPPING
  ++ KEYWORD_MAPPING ++ NUMBER_MAPPING.

(** Cards whose text holds their name. *)
Definition aether_adept : card :=
  Examples.blue (py "Aether Adept")
    (py "Creature " ++ [ch_emdash] ++ py " Human Wizard")
    (Some (py "{1}{U}{U}")) (Some (py "2")) (Some (py "2")) (py "common")
    (py "When Aether Adept enters the battlefield, return target creature to its owner's hand.").

Definition rattlechains : card :=
  Examples.blue (py "Rattlechains")
    (py "Creature " ++ [ch_emdash] ++ py " Spirit")
    (Some (py "{1}{U}")) (Some (py "2")) (Some (py "1")) (py "rare")
    (py "Flash" ++ [ch_newline] ++ py "Flying" ++ [ch_newline]
     ++ py "When Rattlechains enters the battlefield, target Spirit gains hexproof until end of turn.").

End Words.

Import Words.

(** ** Facts about the string operations *)

Section StringFacts.

Lemma eqb_eq (s t : pystr) : PyStr.eqb s t = true <-> s = t.
Proof.
  revert t; induction s as [|c s IH]; intros [|d t]; simpl;
    try (split; congruence).
  rewrite andb_true_iff, N.eqb_eq, IH.
  split; [intros [-> ->]; reflexivity | intros H; inversion H; auto].
Qed.

Lemma eqb_refl (s : pystr) : PyStr.eqb s s = true.
Proof. apply eqb_eq; reflexivity. Qed.

Lemma eqb_neq (s t : pystr) : PyStr.eqb s t = false <-> s <> t.
Proof.
  rewrite <- eqb_eq. destruct (PyStr.eqb s t); split; congruence.
Qed.

Lemma starts_with_nil (s : pystr) : starts_with [] s = true.
Proof. destruct s; reflexivity. Qed.

Lemma starts_with_app (p r : pystr) : starts_with p (p ++ r) = true.
Proof.
  induction p as [|c p IH]; simpl.
  - reflexivity.
  - now rewrite N.eqb_refl, IH.
Qed.

Lemma starts_with_inv (p s : pystr) :
  starts_with p s = true -> exists r, s = p ++ r.
Proof.
  revert s; induction p as [|c p IH]; intros s H.
  - exists s; reflexivity.
  - destruct s as [|d s]; simpl in H; [discriminate|].
    apply andb_true_iff in H as [Hc Hp].
    apply N.eqb_eq in Hc; subst d.
    destruct (IH _ Hp) as [r ->]. exists r; reflexivity.
Qed.

Lemma starts_with_length (p s : pystr) :
  starts_with p s = true -> (List.length p <= List.length s)%nat.
Proof.
  intros H; destruct (starts_with_inv _ _ H) as [r ->].
  rewrite length_app; lia.
Qed.

(** [contains] is the substring relation. *)
Lemma contains_iff (p s : pystr) :
  contains p s = true <-> exists a b, s = a ++ p ++ b.
Proof.
  split.
  - induction s as [|c s IH]; simpl; intros H.
    + rewrite orb_false_r in H.
      destruct (starts_with_inv _ _ H) as [r Hr].
      exists [], r; exact Hr.
    + apply orb_true_iff in H as [H|H].
      * destruct (starts_with_inv _ _ H) as [r Hr].
        exists [], r; exact Hr.
      * destruct (IH H) as (a & b & ->).
        exists (c :: a), b; reflexivity.
  - intros (a & b & ->).
    induction a as [|c a IH]; simpl.
    + destruct (p ++ b) eqn:E; simpl.
      * rewrite <- E, starts_with_app; reflexivity.
      * rewrite <- E, starts_with_app; reflexivity.
    + rewrite IH. apply orb_true_r.
Qed.

Lemma contains_cons (p : pystr) (c : char) (s : pystr) :
  contains p (c :: s) = starts_with p (c :: s) || contains p s.
Proof. reflexivity. Qed.

Lemma contains_nonempty_nil (p : pystr) :
  p <> [] -> contains p [] = false.
Proof. destruct p; simpl; congruence. Qed.

(** *** [replace] *)

Lemma replace_from_cons_skip old new c s k :
  replace_from old new (c :: s) (S k) = replace_from old new s k.
Proof. reflexivity. Qed.

Lemma replace_from_cons_0 old new c s :
  replace_from old new (c :: s) 0 =
  if starts_with old (c :: s)
  then new ++ replace_from old new s (List.length old - 1)
  else c :: replace_from old new s 0.
Proof. reflexivity. Qed.

(** A pattern that does not occur leaves the string as it is. *)
Lemma replace_from_absent old new s :
  contains old s = false -> replace_from old new s 0 = s.
Proof.
  induction s as [|c s IH]; intros H; [reflexivity|].
  rewrite contains_cons in H. apply orb_false_iff in H as [H1 H2].
  rewrite replace_from_cons_0, H1, IH by assumption.
  reflexivity.
Qed.

Lemma replace_absent old new s :
  contains old s = false -> replace old new s = s.
Proof.
  destruct old as [|o old]; intros H.
  - destruct s; simpl in H; discriminate.
  - apply replace_from_absent; assumption.
Qed.

(** When the replacement is not longer than the pattern, a string does
    not grow, and it shrinks when a strictly shorter replacement is put
    for an occurrence. *)
Lemma replace_from_length_le old new s k :
  (List.length new <= List.length old)%nat ->
  (List.length (replace_from old new s k) <= List.length s - k)%nat.
Proof.
  intros Hlen; revert k; induction s as [|c s IH]; intros k.
  - simpl; lia.
  - destruct k as [|k].
    + rewrite replace_from_cons_0.
      destruct (starts_with old (c :: s)) eqn:E.
      * apply starts_with_length in E. simpl in E.
        rewrite length_app.
        specialize (IH (List.length old - 1)%nat). simpl; lia.
      * specialize (IH 0%nat). simpl; lia.
    + rewrite replace_from_cons_skip. specialize (IH k). simpl; lia.
Qed.

Lemma replace_length_le old new s :
  old <> [] -> (List.length new <= List.length old)%nat ->
  (List.length (replace old new s) <= List.length s)%nat.
Proof.
  intros Hne Hlen. destruct old as [|o old]; [congruence|].
  unfold replace.
  pose proof (replace_from_length_le (o :: old) new s 0 Hlen). lia.
Qed.

Lemma replace_length_lt old new s :
  (List.length new < List.length old)%nat ->
  contains old s = true ->
  (List.length (replace old new s) < List.length s)%nat.
Proof.
  intros Hlen. destruct old as [|o old]; [simpl in Hlen; lia|].
  unfold replace.
  induction s as [|c s IH]; intros H.
  - simpl in H; discriminate.
  - rewrite contains_cons in H. rewrite replace_from_cons_0.
    destruct (starts_with (o :: old) (c :: s)) eqn:E.
    + apply starts_with_length in E. simpl in E.
      rewrite length_app.
      pose proof (replace_from_length_le (o :: old) new s
                    (List.length (o :: old) - 1)) as L.
      simpl in L, Hlen |- *. lia.
    + simpl in H. specialize (IH H). simpl; lia.
Qed.

End StringFacts.

(** *** Occurrences of the pattern after a replacement

    [new] is put where [old] stood.  When the first character of each of
    the two strings does not occur in the other one, no occurrence of
    [old] can overlap a copy of [new], and none is left. *)

Section ReplaceRemoves.

Variables (o0 n0 : char) (old' new' : pystr).
Let old := o0 :: old'.
Let new := n0 :: new'.
Hypothesis new_head_not_in_old : ~ In n0 old.
Hypothesis old_head_not_in_new : ~ In o0 new.

Lemma starts_with_replace_from (s p : pystr) :
  (forall c, In c p -> c <> n0) ->
  starts_with p (replace_from old new s 0) = true ->
  starts_with p s = true.
Proof.
  revert p; induction s as [|c s IH]; intros p Hp H.
  - exact H.
  - rewrite replace_from_cons_0 in H.
    destruct p as [|q p]; [reflexivity|].
    destruct (starts_with old (c :: s)).
    + simpl in H. apply andb_true_iff in H as [Hq _].
      apply N.eqb_eq in Hq. exfalso. apply (Hp q); [left; reflexivity|exact Hq].
    + simpl in H |- *. apply andb_true_iff in H as [Hq Hrest].
      rewrite Hq. simpl. apply IH; [|exact Hrest].
      intros d Hd. apply Hp. right; exact Hd.
Qed.

Lemma contains_skip_prefix (x r : pystr) :
  (forall c, In c x -> c <> o0) ->
  contains old (x ++ r) = contains old r.
Proof.
  induction x as [|c x IH]; intros Hx; [reflexivity|].
  change ((c :: x) ++ r) with (c :: (x ++ r)).
  rewrite contains_cons, IH by (intros d Hd; apply Hx; right; exact Hd).
  replace (starts_with old (c :: x ++ r)) with false; [reflexivity|].
  unfold old; simpl.
  destruct (N.eqb_spec o0 c) as [->|]; [|reflexivity].
  exfalso. apply (Hx c); [left|]; reflexivity.
Qed.

Lemma replace_from_removes (s : pystr) (k : nat) :
  contains old (replace_from old new s k) = false.
Proof.
  revert k; induction s as [|c s IH]; intros k.
  - reflexivity.
  - destruct k as [|k]; [|apply IH].
    rewrite replace_from_cons_0.
    destruct (starts_with old (c :: s)) eqn:E.
    + rewrite contains_skip_prefix; [apply IH|].
      intros d Hd ->. apply old_head_not_in_new. exact Hd.
    + rewrite contains_cons, IH, orb_false_r.
      destruct (starts_with old (c :: replace_from old new s 0)) eqn:F;
        [|reflexivity].
      rewrite <- E. symmetry.
      apply starts_with_replace_from.
      * intros d Hd ->. apply new_head_not_in_old. exact Hd.
      * rewrite replace_from_cons_0, E. exact F.
Qed.

Lemma replace_removes (s : pystr) :
  contains old (replace old new s) = false.
Proof. apply replace_from_removes. Qed.

End ReplaceRemoves.

(** *** Whitespace *)

Section WhitespaceFacts.

(** [lstrip] keeps a suffix and [rstrip] a prefix of the string. *)
Lemma lstrip_suffix (s : pystr) : exists a, s = a ++ lstrip s.
Proof.
  induction s as [|c s [a IH]]; simpl.
  - exists []; reflexivity.
  - destruct (isspace c).
    + exists (c :: a). simpl. f_equal. exact IH.
    + exists []; reflexivity.
Qed.

Lemma rstrip_prefix (s : pystr) : exists b, s = rstrip s ++ b.
Proof.
  induction s as [|c s [b IH]]; simpl.
  - exists []; reflexivity.
  - destruct (rstrip s) as [|d r] eqn:E.
    + destruct (isspace c).
      * exists (c :: s); reflexivity.
      * exists s; reflexivity.
    + exists b. simpl. f_equal. exact IH.
Qed.

Lemma contains_strip (p s : pystr) :
  contains p (strip s) = true -> contains p s = true.
Proof.
  rewrite !contains_iff. intros (a & b & H).
  destruct (lstrip_suffix s) as [a' Ha].
  destruct (rstrip_prefix (lstrip s)) as [b' Hb].
  exists (a' ++ a), (b ++ b').
  rewrite Ha at 1. rewrite Hb at 1. unfold strip in H. rewrite H.
  rewrite <- !app_assoc. reflexivity.
Qed.

(** A pattern without whitespace that is found after the runs of
    whitespace were collapsed was there before. *)
Lemma starts_with_sub_spaces (p s : pystr) :
  forallb (fun c => negb (isspace c)) p = true ->
  starts_with p (sub_spaces_from false s) = true ->
  starts_with p s = true.
Proof.
  revert p; induction s as [|c s IH]; intros p Hp H.
  - exact H.
  - destruct p as [|q p]; [reflexivity|].
    simpl in Hp. apply andb_true_iff in Hp as [Hq Hp].
    simpl in H |- *. destruct (isspace c) eqn:E.
    + simpl in H. apply andb_true_iff in H as [H _].
      apply N.eqb_eq in H. subst q. discriminate.
    + simpl in H. apply andb_true_iff in H as [H1 H2].
      rewrite H1. simpl. apply IH; assumption.
Qed.

Lemma contains_sub_spaces_from (p s : pystr) (b : bool) :
  p <> [] ->
  forallb (fun c => negb (isspace c)) p = true ->
  contains p (sub_spaces_from b s) = true ->
  contains p s = true.
Proof.
  intros Hne Hp. revert b; induction s as [|c s IH]; intros b H.
  - exact H.
  - rewrite contains_cons. simpl in H. destruct (isspace c) eqn:E.
    + destruct b.
      * rewrite (IH _ H). apply orb_true_r.
      * rewrite contains_cons in H. apply orb_true_iff in H as [H|H].
        -- destruct p as [|q p]; [congruence|].
           simpl in Hp. apply andb_true_iff in Hp as [Hq _].
           simpl in H. apply andb_true_iff in H as [H _].
           apply N.eqb_eq in H. subst q. discriminate.
        -- rewrite (IH _ H). apply orb_true_r.
    + rewrite contains_cons in H. apply orb_true_iff in H as [H|H].
      * rewrite (starts_with_sub_spaces p (c :: s) Hp); [reflexivity|].
        simpl. rewrite E. exact H.
      * rewrite (IH _ H). apply orb_true_r.
Qed.

Lemma contains_sub_spaces_strip (p s : pystr) :
  p <> [] ->
  forallb (fun c => negb (isspace c)) p = true ->
  contains p s = false ->
  contains p (sub_spaces (strip s)) = false.
Proof.
  intros Hne Hp H.
  destruct (contains p (sub_spaces (strip s))) eqn:E; [|reflexivity].
  apply contains_sub_spaces_from in E; try assumption.
  apply contains_strip in E. congruence.
Qed.

End WhitespaceFacts.

(** *** Deleting one character *)

Lemma replace_char_filter (c : char) (s : pystr) :
  replace [c] [] s = filter (fun d => negb (c =? d)) s.
Proof.
  unfold replace. induction s as [|d s IH]; [reflexivity|].
  rewrite replace_from_cons_0. simpl starts_with.
  rewrite andb_true_r. simpl List.length. simpl filter.
  destruct (c =? d); simpl; rewrite IH; reflexivity.
Qed.

Lemma replace_char_twice (c : char) (s : pystr) :
  replace [c] [] (replace [c] [] s) = replace [c] [] s.
Proof.
  rewrite !replace_char_filter.
  induction s as [|d s IH]; [reflexivity|].
  simpl. destruct (c =? d) eqn:E; simpl; [exact IH|].
  rewrite E. simpl. f_equal. exact IH.
Qed.

(** ** The loops as substitution passes *)

Lemma for_items_replace_both (d : mapping) (s : pystr) :
  for_items d replace_both s = two_pass d s.
Proof.
  unfold for_items, two_pass. revert s.
  induction d as [|[k v] d IH]; intros s; [reflexivity|].
  simpl. apply IH.
Qed.

Lemma for_items_replace_exact (d : mapping) (s : pystr) :
  for_items d replace_exact s = one_pass d s.
Proof.
  unfold for_items, one_pass. revert s.
  induction d as [|[k v] d IH]; intros s; [reflexivity|].
  simpl. apply IH.
Qed.

(** The braces have no case: the second pass finds nothing. *)
Lemma mana_one_pass_two_pass (s : pystr) :
  one_pass MANA_COST_MAPPING s = two_pass MANA_COST_MAPPING s.
Proof.
  unfold one_pass, two_pass, MANA_COST_MAPPING.
  change (py "{") with [123]. change (py "}") with [125].
  change (py "") with (@nil char).
  cbn [two_passes flat_map app substitute_all lower List.map].
  change (lower_char 123) with 123. change (lower_char 125) with 125.
  rewrite !replace_char_twice. reflexivity.
Qed.

(** [lower] is applied to the keys of the tables only, and they are made
    of ASCII characters and the em dash. *)
Example keys_have_ascii_case :
  forallb (fun kv =>
             forallb (fun c => (c <? 128) || (c =? ch_emdash)) (fst kv))
          all_pairs = true.
Proof. vm_compute. reflexivity. Qed.

(** ** C1: the passes of each dictionary application *)

(** C1, as stated, fails on the name field: the loop over the Land table
    that rewrites the name makes the exact-case pass only, so the name
    [forest] is kept where two passes per pair turn it into [FoL]. *)
Lemma C1_name_pass_is_not_two_pass :
  normalize_name (py "forest") <> two_pass LAND_MAPPING (py "forest").
Proof. vm_compute. discriminate. Qed.

(** C1, amended: the loops over the type line (Supertype, Subtype, Land)
    and over the rules text (Phrase, Supertype, Subtype, Land, Keyword,
    Number) make two substitution passes per pair, the exact-case
    pattern and then its lowercase variant with the same code; the loops
    that strip the braces (from the rules text and from the mana cost)
    and the loop that rewrites the name by the Land table make the
    exact-case pass only, which for the braces comes to the same as two
    passes. *)
Theorem C1_passes_per_pair :
  (forall t,
      normalize_type t =
      two_pass LAND_MAPPING
        (two_pass SUB_TYPE_MAPPING (two_pass SUPER_TYPE_MAPPING t)))
  /\ (forall name text,
      normalize_text name text =
      sub_spaces (strip (replace name (py "NAME") (sub_parens
        (one_pass MANA_COST_MAPPING
          (two_pass NUMBER_MAPPING
            (two_pass KEYWORD_MAPPING
              (two_pass LAND_MAPPING
                (two_pass SUB_TYPE_MAPPING
                  (two_pass SUPER_TYPE_MAPPING
                    (two_pass TEXT_MAPPING text)))))))))))
  /\ (forall m,
      normalize_mana_cost (Some m) = Some (one_pass MANA_COST_MAPPING m))
  /\ (forall s,
      one_pass MANA_COST_MAPPING s = two_pass MANA_COST_MAPPING s)
  /\ (forall n, normalize_name n = one_pass LAND_MAPPING n).
Proof.
  split; [|split; [|split; [|split]]].
  - intros t. unfold normalize_type.
    rewrite !for_items_replace_both. reflexivity.
  - intros name text. unfold normalize_text, text_with_placeholder.
    rewrite !for_items_replace_both, for_items_replace_exact. reflexivity.
  - intros [|c m]; [reflexivity|].
    unfold normalize_mana_cost. rewrite for_items_replace_exact.
    reflexivity.
  - apply mana_one_pass_two_pass.
  - intros n. apply for_items_replace_exact.
Qed.

(** ** C2: the order of the stages *)

(** C2: for every card that the loop normalizes, the rules text is the
    text selected run through Phrase, Supertype, Subtype, Land, Keyword,
    Number, mana-symbol stripping, reminder-text removal,
    name-placeholder substitution and whitespace collapse, in this
    order, and the type line is the one selected run through Supertype,
    Subtype and Land, in this order. *)
Theorem C2_stage_order (row c : card) :
  normalize_card row = Ok c ->
  text c = run_stages (name row) text_order (text row)
  /\ card_type c = run_stages (name row) type_order (card_type row).
Proof.
  unfold normalize_card, bind.
  destruct (normalize_rarity (rarity row)) as [r|e]; [|discriminate].
  intros H. injection H as <-. split.
  - cbn [text].
    unfold normalize_text, text_with_placeholder, run_stages, text_order.
    cbn [fold_left run_stage].
    rewrite !for_items_replace_both, for_items_replace_exact.
    rewrite mana_one_pass_two_pass. reflexivity.
  - cbn [card_type]. unfold normalize_type, run_stages, type_order.
    cbn [fold_left run_stage].
    rewrite !for_items_replace_both. reflexivity.
Qed.

(** The stages at the card [Opt]. *)
Lemma C2_stage_order_witness :
  exists c,
    normalize_card Examples.opt = Ok c
    /\ text c =
       run_stages (name Examples.opt) text_order (text Examples.opt)
    /\ card_type c =
       run_stages (name Examples.opt) type_order (card_type Examples.opt).
Proof.
  eexists. split; [reflexivity|].
  apply (C2_stage_order Examples.opt). reflexivity.
Defined.

(** The order matters: with the Supertype table before the Phrase table
    the word [Creature] of a rules text would get another code. *)
Example stage_order_matters :
  run_stages [] [Phrase; Supertype] (py "Creature") = py "CR"
  /\ run_stages [] [Supertype; Phrase] (py "Creature") = py "C".
Proof. split; vm_compute; reflexivity. Qed.

(** ** C3: reminder text *)

Lemma greedy_close_none (s : pystr) :
  ~ In ch_rparen s -> greedy_close s = None.
Proof.
  induction s as [|c s IH]; intros H; [reflexivity|].
  simpl. destruct (c =? ch_newline); [reflexivity|].
  rewrite IH by (intros F; apply H; right; exact F).
  destruct (N.eqb_spec c ch_rparen) as [->|]; [|reflexivity].
  exfalso. apply H. left; reflexivity.
Qed.

Lemma greedy_close_last (b c : pystr) :
  ~ In ch_newline b -> ~ In ch_rparen c ->
  greedy_close (b ++ ch_rparen :: c) = Some (S (List.length b)).
Proof.
  intros Hb Hc. induction b as [|x b IH].
  - simpl. rewrite greedy_close_none by exact Hc. reflexivity.
  - simpl. destruct (N.eqb_spec x ch_newline) as [->|].
    + exfalso. apply Hb. left; reflexivity.
    + rewrite IH by (intros F; apply Hb; right; exact F). reflexivity.
Qed.

Lemma sub_parens_from_skip (b s : pystr) :
  sub_parens_from (b ++ s) (List.length b) = sub_parens_from s 0.
Proof.
  induction b as [|x b IH]; [destruct s; reflexivity|exact IH].
Qed.

Lemma sub_parens_unclosed (s : pystr) :
  ~ In ch_rparen s -> sub_parens_from s 0 = s.
Proof.
  induction s as [|c s IH]; intros H; [reflexivity|].
  simpl. rewrite IH by (intros F; apply H; right; exact F).
  rewrite greedy_close_none by (intros F; apply H; right; exact F).
  destruct (c =? ch_lparen); reflexivity.
Qed.

(** What the substitution does on one line: everything from the first
    opening parenthesis to the last closing one goes, whatever stands
    between two parenthesized spans. *)
Lemma sub_parens_first_to_last (a b c : pystr) :
  ~ In ch_lparen a -> ~ In ch_newline b -> ~ In ch_rparen c ->
  sub_parens (a ++ ch_lparen :: b ++ ch_rparen :: c) = a ++ c.
Proof.
  intros Ha Hb Hc. unfold sub_parens.
  induction a as [|x a IH].
  - simpl. rewrite greedy_close_last by assumption.
    replace (b ++ ch_rparen :: c) with ((b ++ [ch_rparen]) ++ c)
      by (rewrite <- app_assoc; reflexivity).
    replace (S (List.length b)) with (List.length (b ++ [ch_rparen]))
      by (rewrite length_app; simpl; lia).
    rewrite sub_parens_from_skip. apply sub_parens_unclosed. exact Hc.
  - simpl. destruct (N.eqb_spec x ch_lparen) as [->|].
    + exfalso. apply Ha. left; reflexivity.
    + f_equal. apply IH. intros F; apply Ha; right; exact F.
Qed.

(** C3: on a rules text with two reminder texts, the code deletes the
    rules text that stands between them as well: of [Flying (...)],
    [Vigilance (...)], [Draw a card.] the word [Vigilance] and its code
    are lost, where the claim keeps what is between the two spans. *)
Theorem C3_text_between_reminders_is_deleted :
  normalize_text (name Examples.sentinel) (text Examples.sentinel)
  = py "FLY DAC."
  /\ sub_parens (py "a (b) c (d) e") = py "a  e".
Proof. split; vm_compute; reflexivity. Qed.

(** ** C4: the card's own name in the rules text *)

Lemma existsb_eqb_false (c : char) (l : pystr) :
  existsb (N.eqb c) l = false -> ~ In c l.
Proof.
  intros H F.
  assert (existsb (N.eqb c) l = true) as E.
  { apply existsb_exists. exists c. split; [exact F|apply N.eqb_refl]. }
  congruence.
Qed.

Lemma placeholder_removes_name (name s : pystr) :
  clear_of_placeholder name = true ->
  contains name (replace name (py "NAME") s) = false.
Proof.
  destruct name as [|o0 rest]; [discriminate|].
  unfold clear_of_placeholder. intros H.
  apply andb_true_iff in H as [H1 H2].
  apply negb_true_iff in H1, H2.
  change (py "NAME") with (78 :: py "AME").
  apply replace_removes.
  - apply existsb_eqb_false. exact H2.
  - apply existsb_eqb_false. exact H1.
Qed.

(** C4, as stated, fails: the whitespace is cleaned up after the name
    was looked for, so a name written with two spaces in the rules text
    is not found by the substitution and is the name again in the
    result. *)
Lemma C4_name_left_in_text :
  exists c,
    normalize_card Examples.tide_pool = Ok c
    /\ contains (name Examples.tide_pool) (text c) = true.
Proof. eexists. split; [reflexivity|]. vm_compute. reflexivity. Qed.

(** The placeholder itself can bring the name back. *)
Example name_inside_placeholder :
  normalize_text (py "AM") (py "AM deals 1 damage.")
  = py "NAME deals 1 damage."
  /\ contains (py "AM") (normalize_text (py "AM") (py "AM deals 1 damage."))
     = true.
Proof. split; vm_compute; reflexivity. Qed.

(** *** Copies of the pattern that overlap a replacement *)

Lemma starts_with_app_compat (p v r : pystr) :
  starts_with p (v ++ r) = true -> compat p v = true.
Proof.
  revert p; induction v as [|c v IH]; intros p H.
  - unfold compat. apply orb_true_r.
  - destruct p as [|q p]; [reflexivity|].
    simpl in H. apply andb_true_iff in H as [Hq Hp].
    apply N.eqb_eq in Hq. subst q. specialize (IH p Hp).
    unfold compat in *. simpl. rewrite N.eqb_refl. exact IH.
Qed.

Lemma existsb_false_in {A : Type} (f : A -> bool) (l : list A) (x : A) :
  existsb f l = false -> In x l -> f x = false.
Proof.
  intros H Hx. destruct (f x) eqn:E; [|reflexivity].
  assert (existsb f l = true) as F
    by (apply existsb_exists; exists x; split; assumption).
  congruence.
Qed.

Lemma tails_head (c : char) (s : pystr) : In (c :: s) (tails (c :: s)).
Proof. left. reflexivity. Qed.

Lemma tails_tail (c : char) (s v : pystr) :
  In v (tails s) -> In v (tails (c :: s)).
Proof. intros H. right. exact H. Qed.

Section NoOverlap.

Variables old new : pystr.
Hypothesis old_not_empty : old <> [].
Hypothesis no_overlap : overlaps old new = false.

Lemma old_not_in_new (v : pystr) :
  In v (tails new) -> compat old v = false.
Proof.
  pose proof no_overlap as H0. unfold overlaps in H0.
  apply orb_false_iff in H0 as [H _].
  apply (existsb_false_in (fun v => compat old v)). exact H.
Qed.

Lemma old_not_into_new (w : pystr) :
  In w (tails old) -> compat w new = false.
Proof.
  pose proof no_overlap as H0. unfold overlaps in H0.
  apply orb_false_iff in H0 as [_ H].
  apply (existsb_false_in (fun w => compat w new)). exact H.
Qed.

Lemma contains_skip_block (x r : pystr) :
  (forall v, In v (tails x) -> compat old v = false) ->
  contains old (x ++ r) = contains old r.
Proof.
  induction x as [|c x IH]; intros Hx; [reflexivity|].
  change ((c :: x) ++ r) with (c :: (x ++ r)).
  rewrite contains_cons, IH by (intros v Hv; apply Hx, tails_tail, Hv).
  destruct (starts_with old (c :: x ++ r)) eqn:E; [|reflexivity].
  apply (starts_with_app_compat old (c :: x) r) in E.
  rewrite (Hx _ (tails_head c x)) in E. discriminate.
Qed.

Lemma starts_with_replace_from_block (s p : pystr) :
  (forall w, In w (tails p) -> compat w new = false) ->
  starts_with p (replace_from old new s 0) = true ->
  starts_with p s = true.
Proof.
  revert p; induction s as [|c s IH]; intros p Hp H; [exact H|].
  destruct p as [|q p]; [reflexivity|].
  rewrite replace_from_cons_0 in H.
  destruct (starts_with old (c :: s)).
  - apply starts_with_app_compat in H.
    rewrite (Hp _ (tails_head q p)) in H. discriminate.
  - simpl in H |- *. apply andb_true_iff in H as [Hq Hrest].
    rewrite Hq. simpl. apply IH; [|exact Hrest].
    intros w Hw. apply Hp, tails_tail, Hw.
Qed.

Lemma replace_from_no_overlap (s : pystr) (k : nat) :
  contains old (replace_from old new s k) = false.
Proof.
  revert k; induction s as [|c s IH]; intros k.
  - apply contains_nonempty_nil. exact old_not_empty.
  - destruct k as [|k]; [|apply IH].
    rewrite replace_from_cons_0.
    destruct (starts_with old (c :: s)) eqn:E.
    + rewrite contains_skip_block; [apply IH|apply old_not_in_new].
    + rewrite contains_cons, IH, orb_false_r.
      destruct (starts_with old (c :: replace_from old new s 0)) eqn:F;
        [|reflexivity].
      rewrite <- E. symmetry.
      apply starts_with_replace_from_block; [apply old_not_into_new|].
      rewrite replace_from_cons_0, E. exact F.
Qed.

Lemma replace_no_overlap (s : pystr) :
  contains old (replace old new s) = false.
Proof.
  pose proof (replace_from_no_overlap s 0) as H.
  pose proof old_not_empty as Hne.
  unfold replace. revert H Hne. generalize old.
  intros [|o p] H Hne; [congruence|exact H].
Qed.

End NoOverlap.

Lemma placeholder_no_overlap (name s : pystr) :
  overlaps name (py "NAME") = false ->
  contains name (replace name (py "NAME") s) = false.
Proof.
  intros H. apply replace_no_overlap; [|exact H].
  intros ->. vm_compute in H. discriminate.
Qed.

(** The names that [clear_of_placeholder] accepts are among those that
    cannot overlap the placeholder. *)
Lemma clear_of_placeholder_no_overlap (name : pystr) :
  clear_of_placeholder name = true -> overlaps name (py "NAME") = false.
Proof.
  destruct name as [|c rest]; [discriminate|].
  unfold clear_of_placeholder. intros H.
  apply andb_true_iff in H as [H1 H2]. apply negb_true_iff in H1, H2.
  assert (forall x, In x (py "NAME") -> (c =? x) = false) as Hc
    by (intros x Hx; exact (existsb_false_in _ _ x H1 Hx)).
  assert (forall w, In w (tails (c :: rest)) ->
                    compat w (py "NAME") = false) as Hw.
  { clear H1 Hc. revert H2. generalize (c :: rest) as n.
    induction n as [|d n IH]; intros H w Hin; [destruct Hin|].
    cbn [existsb] in H. apply orb_false_iff in H as [Hd Hn].
    destruct Hin as [<-|Hin]; [|exact (IH Hn w Hin)].
    unfold compat. change (py "NAME") with (78 :: py "AME").
    cbn [starts_with]. rewrite (N.eqb_sym d 78), Hd. reflexivity. }
  unfold overlaps. apply orb_false_iff. split.
  - change (tails (py "NAME"))
      with [78 :: py "AME"; 65 :: py "ME"; 77 :: py "E"; [69]].
    unfold compat. cbn [existsb starts_with].
    rewrite !(N.eqb_sym _ c).
    rewrite (Hc 78), (Hc 65), (Hc 77), (Hc 69)
      by (vm_compute; tauto).
    reflexivity.
  - destruct (existsb (fun w => compat w (py "NAME")) (tails (c :: rest)))
      eqn:E; [|reflexivity].
    apply existsb_exists in E as (w & Hin & E).
    rewrite (Hw w Hin) in E. discriminate.
Qed.

(** *** The overlap is needed

    When a copy of the name can begin inside the placeholder, there is a
    text in which the substitution leaves the name. *)

Lemma replace_from_skip (old new x r : pystr) :
  replace_from old new (x ++ r) (List.length x) = replace_from old new r 0.
Proof.
  induction x as [|c x IH]; [destruct r; reflexivity|exact IH].
Qed.

Lemma replace_from_head (o : char) (old new r : pystr) :
  replace_from (o :: old) new ((o :: old) ++ r) 0
  = new ++ replace_from (o :: old) new r 0.
Proof.
  change ((o :: old) ++ r) with (o :: (old ++ r)).
  rewrite replace_from_cons_0.
  change (o :: old ++ r) with ((o :: old) ++ r).
  rewrite starts_with_app. f_equal.
  replace (List.length (o :: old) - 1)%nat with (List.length old)
    by (simpl; lia).
  apply replace_from_skip.
Qed.

Lemma tails_suffix (v s : pystr) :
  In v (tails s) -> v <> [] /\ exists pre, s = pre ++ v.
Proof.
  induction s as [|c s IH]; intros H; [destruct H|].
  destruct H as [<-|H].
  - split; [discriminate|]. exists []. reflexivity.
  - destruct (IH H) as [Hv [pre ->]]. split; [exact Hv|].
    exists (c :: pre). reflexivity.
Qed.

Lemma shorter_absent (old s : pystr) :
  (List.length s < List.length old)%nat -> contains old s = false.
Proof.
  intros H. destruct (contains old s) eqn:E; [|reflexivity].
  apply contains_iff in E as (a & b & ->).
  rewrite !length_app in H. lia.
Qed.

Lemma overlap_brings_name_back (name : pystr) :
  existsb (fun v => compat name v) (tails (py "NAME")) = true ->
  exists text, contains name (replace name (py "NAME") text) = true.
Proof.
  intros H. apply existsb_exists in H as (v & Hv & Hc).
  destruct (tails_suffix v _ Hv) as [Hne [pre Hpre]].
  destruct name as [|o name'].
  - exists []. reflexivity.
  - unfold compat in Hc. apply orb_true_iff in Hc as [Hc|Hc].
    + apply starts_with_inv in Hc as [r Hr].
      exists (o :: name'). unfold replace.
      pose proof (replace_from_head o name' (py "NAME") []) as E.
      rewrite (app_nil_r (o :: name')) in E.
      change (replace_from (o :: name') (py "NAME") [] 0)
        with (@nil char) in E.
      rewrite app_nil_r in E. rewrite E.
      apply contains_iff. exists pre, r.
      rewrite Hpre, Hr. reflexivity.
    + apply starts_with_inv in Hc as [rest Hrest].
      exists ((o :: name') ++ rest). unfold replace.
      rewrite replace_from_head.
      rewrite (replace_from_absent (o :: name') (py "NAME") rest).
      * apply contains_iff. exists pre, []. rewrite app_nil_r.
        rewrite Hpre, Hrest, <- app_assoc. reflexivity.
      * apply shorter_absent. rewrite Hrest, length_app.
        destruct v; [congruence|simpl; lia].
Qed.

(** *** Loose occurrences and the whitespace cleanup *)

Lemma loose_prefix_nonspace (p : pystr) (b : bool) (d : char) (s : pystr) :
  isspace d = false ->
  loose_prefix p b (d :: s) = loose_prefix p false (d :: s).
Proof.
  intros H. destruct p as [|c p]; [reflexivity|].
  simpl. rewrite H, andb_false_r. reflexivity.
Qed.

Lemma starts_with_sub_spaces_loose (s p : pystr) (b : bool) :
  starts_with p (sub_spaces_from b s) = true -> loose_prefix p b s = true.
Proof.
  revert p b; induction s as [|d s IH]; intros p b H.
  - destruct p; [reflexivity|discriminate].
  - destruct p as [|c p]; [reflexivity|].
    simpl in H. destruct (isspace d) eqn:E.
    + destruct b.
      * simpl. rewrite E. simpl. apply IH. exact H.
      * simpl in H. apply andb_true_iff in H as [Hc Hp].
        simpl. rewrite E, Hc. simpl. apply IH. exact Hp.
    + simpl in H. apply andb_true_iff in H as [Hc Hp].
      apply N.eqb_eq in Hc. subst c.
      simpl. rewrite E, andb_false_r.
      destruct (N.eqb_spec d ch_space) as [->|_]; [discriminate|].
      rewrite N.eqb_refl. simpl. apply IH. exact Hp.
Qed.

Lemma loose_contains_step (p : pystr) (d : char) (s : pystr) :
  loose_contains p (d :: s)
  = loose_prefix p false (d :: s) || loose_contains p s.
Proof. reflexivity. Qed.

Lemma loose_contains_cons (p : pystr) (d : char) (s : pystr) :
  loose_contains p s = true -> loose_contains p (d :: s) = true.
Proof. intros H. rewrite loose_contains_step, H. apply orb_true_r. Qed.

Lemma contains_sub_spaces_loose (s p : pystr) (b : bool) :
  p <> [] ->
  contains p (sub_spaces_from b s) = true -> loose_contains p s = true.
Proof.
  intros Hne. revert b; induction s as [|d s IH]; intros b H.
  - change (contains p [] = true) in H.
    rewrite (contains_nonempty_nil p Hne) in H. discriminate.
  - simpl in H. destruct (isspace d) eqn:E.
    + destruct b.
      * apply loose_contains_cons. exact (IH _ H).
      * change (contains p (ch_space :: sub_spaces_from true s) = true) in H.
        rewrite contains_cons in H. apply orb_true_iff in H as [H|H].
        -- rewrite loose_contains_step.
           rewrite (starts_with_sub_spaces_loose (d :: s) p false).
           ++ reflexivity.
           ++ simpl. rewrite E. exact H.
        -- apply loose_contains_cons. exact (IH _ H).
    + change (contains p (d :: sub_spaces_from false s) = true) in H.
      rewrite contains_cons in H. apply orb_true_iff in H as [H|H].
      * rewrite loose_contains_step.
        rewrite (starts_with_sub_spaces_loose (d :: s) p false).
        -- reflexivity.
        -- simpl. rewrite E. exact H.
      * apply loose_contains_cons. exact (IH _ H).
Qed.

Lemma loose_prefix_app (p : pystr) (b : bool) (s t : pystr) :
  loose_prefix p b s = true -> loose_prefix p b (s ++ t) = true.
Proof.
  revert p b; induction s as [|d s IH]; intros p b H.
  - destruct p; [destruct t; reflexivity|discriminate].
  - destruct p as [|c p]; [reflexivity|].
    simpl in H |- *. destruct (b && isspace d); [apply IH; exact H|].
    destruct (c =? ch_space).
    + apply andb_true_iff in H as [H1 H2]. rewrite H1. simpl.
      apply IH. exact H2.
    + apply andb_true_iff in H as [H1 H2]. rewrite H1. simpl.
      apply IH. exact H2.
Qed.

Lemma loose_contains_app_r (p s t : pystr) :
  loose_contains p s = true -> loose_contains p (s ++ t) = true.
Proof.
  induction s as [|d s IH]; intros H.
  - simpl in H. rewrite orb_false_r in H.
    destruct p; [destruct t; reflexivity|discriminate].
  - rewrite loose_contains_step in H. apply orb_true_iff in H as [H|H].
    + change ((d :: s) ++ t) with (d :: (s ++ t)).
      rewrite loose_contains_step.
      change (d :: s ++ t) with ((d :: s) ++ t).
      rewrite (loose_prefix_app _ _ _ t H). reflexivity.
    + apply (loose_contains_cons p d (s ++ t)). exact (IH H).
Qed.

Lemma loose_contains_app_l (p a s : pystr) :
  loose_contains p s = true -> loose_contains p (a ++ s) = true.
Proof.
  intros H. induction a as [|d a IH]; [exact H|].
  apply (loose_contains_cons p d (a ++ s)). exact IH.
Qed.

Lemma loose_contains_cleanup (p u : pystr) :
  p <> [] ->
  contains p (cleanup u) = true -> loose_contains p u = true.
Proof.
  intros Hne H. unfold cleanup, sub_spaces in H.
  apply contains_sub_spaces_loose in H; [|exact Hne].
  unfold strip in H.
  destruct (lstrip_suffix u) as [a Ha].
  destruct (rstrip_prefix (lstrip u)) as [b Hb].
  rewrite Ha, Hb.
  apply loose_contains_app_l, loose_contains_app_r. exact H.
Qed.

Lemma loose_prefix_no_space (p s : pystr) :
  no_space p = true -> loose_prefix p false s = starts_with p s.
Proof.
  revert s; induction p as [|c p IH]; intros s H.
  - destruct s; reflexivity.
  - simpl in H. apply andb_true_iff in H as [Hc Hp].
    apply negb_true_iff in Hc.
    destruct s as [|d s]; [reflexivity|].
    simpl. destruct (N.eqb_spec c ch_space) as [->|_]; [discriminate|].
    rewrite (IH s Hp). reflexivity.
Qed.

Lemma loose_contains_no_space (p s : pystr) :
  no_space p = true -> loose_contains p s = contains p s.
Proof.
  intros H. induction s as [|d s IH].
  - change (loose_contains p []) with (loose_prefix p false [] || false).
    rewrite (loose_prefix_no_space p [] H). reflexivity.
  - rewrite loose_contains_step, contains_cons, IH.
    rewrite (loose_prefix_no_space p (d :: s) H). reflexivity.
Qed.

(** C4, amended: for every card whose name cannot overlap the
    placeholder (no copy of the name can begin inside [NAME] or run into
    it), the rules text, right after the placeholder substitution, has
    no occurrence of the name as selected; and the normalized rules text
    has none either, unless that text held the name written with wider
    whitespace, which the cleanup then narrows to the name.  A name
    without whitespace cannot be written so. *)
Theorem C4_name_absent (row c : card) :
  normalize_card row = Ok c ->
  overlaps (name row) (py "NAME") = false ->
  contains (name row) (text_with_placeholder (name row) (text row)) = false
  /\ (loose_contains (name row)
        (text_with_placeholder (name row) (text row)) = false ->
      contains (name row) (text c) = false)
  /\ (no_space (name row) = true ->
      contains (name row) (text c) = false).
Proof.
  intros Hc Hclear.
  assert (contains (name row)
            (text_with_placeholder (name row) (text row)) = false) as H.
  { unfold text_with_placeholder.
    apply placeholder_no_overlap. exact Hclear. }
  assert (name row <> []) as Hne
    by (intros E; rewrite E in Hclear; vm_compute in Hclear; discriminate).
  assert (text c = cleanup (text_with_placeholder (name row) (text row)))
    as Ht.
  { unfold normalize_card, bind in Hc.
    destruct (normalize_rarity (rarity row)); [|discriminate].
    injection Hc as <-. reflexivity. }
  assert (loose_contains (name row)
            (text_with_placeholder (name row) (text row)) = false ->
          contains (name row) (text c) = false) as Hloose.
  { intros L. rewrite Ht.
    destruct (contains (name row) (cleanup _)) eqn:E; [|reflexivity].
    apply loose_contains_cleanup in E; [congruence|exact Hne]. }
  split; [exact H|]. split; [exact Hloose|].
  intros Hspace. apply Hloose.
  rewrite loose_contains_no_space by exact Hspace. exact H.
Qed.

(** The card [Aether Adept]: its name, of two words and beginning with
    [A], stands in its text and is replaced. *)
Lemma C4_name_absent_witness :
  exists c,
    normalize_card aether_adept = Ok c
    /\ overlaps (name aether_adept) (py "NAME") = false
    /\ contains (name aether_adept)
         (text_without_reminders (text aether_adept)) = true
    /\ loose_contains (name aether_adept)
         (text_with_placeholder (name aether_adept) (text aether_adept))
       = false
    /\ text c = py "When NAME ETB, RT CR to its owner's hand."
    /\ contains (name aether_adept) (text c) = false.
Proof.
  eexists. split; [reflexivity|].
  split; [vm_compute; reflexivity|].
  split; [vm_compute; reflexivity|].
  assert (loose_contains (name aether_adept)
            (text_with_placeholder (name aether_adept) (text aether_adept))
          = false) as L by (vm_compute; reflexivity).
  split; [exact L|]. split; [vm_compute; reflexivity|].
  refine (proj1 (proj2 (C4_name_absent aether_adept _ eq_refl _)) L).
  vm_compute. reflexivity.
Defined.

(** ** C5: the prompt *)

Lemma generate_prompt_head (set_data : set_record) (cards : list card) :
  exists rest, generate_prompt set_data cards = 110 :: rest.
Proof.
  unfold generate_prompt, explain_set.
  assert (writerow [py "name"; py "release"; py "type"]
          = 110 :: py "ame|release|type" ++ [ch_newline]) as ->
    by (vm_compute; reflexivity).
  eexists. cbn [app]. reflexivity.
Qed.

(** C5: the text that [main] prints is the set block followed by the
    card block and nothing before them: [PROMPT], which ends in
    [Your input:], is never used, where the claim puts it first. *)
Theorem C5_prompt_lacks_template :
  main Examples.environ Examples.db (py "DMU")
  = Ok (py "name|release|type" ++ [ch_newline]
        ++ py "Dominaria United|2022-09-09|expansion" ++ [ch_newline]
        ++ py "type|mana_cost|name|power|toughness|rarity|text"
        ++ [ch_newline]
        ++ py "I|U|Opt|||C|SC 1. DAC." ++ [ch_newline])
  /\ (forall set_data cards,
        generate_prompt set_data cards
        = explain_set set_data ++ explain_cards cards
        /\ starts_with PROMPT (generate_prompt set_data cards) = false).
Proof.
  split; [vm_compute; reflexivity|].
  intros set_data cards. split; [reflexivity|].
  destruct (generate_prompt_head set_data cards) as [rest ->].
  assert (exists tl, PROMPT = 10 :: tl) as [tl ->]
    by (eexists; vm_compute; reflexivity).
  reflexivity.
Qed.

(** ** C6: the rarity lookup *)

Lemma normalize_rarity_unrecognized (r : pystr) :
  ~ recognized r -> normalize_rarity r = Raise (KeyError r).
Proof.
  intros H. unfold normalize_rarity, RARITY_MAPPING, lookup.
  destruct (PyStr.eqb r (py "common")) eqn:E1;
    [apply eqb_eq in E1; exfalso; apply H; unfold recognized; tauto|].
  destruct (PyStr.eqb r (py "uncommon")) eqn:E2;
    [apply eqb_eq in E2; exfalso; apply H; unfold recognized; tauto|].
  destruct (PyStr.eqb r (py "rare")) eqn:E3;
    [apply eqb_eq in E3; exfalso; apply H; unfold recognized; tauto|].
  destruct (PyStr.eqb r (py "mythic")) eqn:E4;
    [apply eqb_eq in E4; exfalso; apply H; unfold recognized; tauto|].
  reflexivity.
Qed.

Lemma normalize_rarity_recognized (r : pystr) :
  recognized r -> exists x, normalize_rarity r = Ok x.
Proof.
  intros [-> | [-> | [-> | ->]]]; eexists; vm_compute; reflexivity.
Qed.

(** A code is not a key of the rarity table. *)
Lemma normalize_rarity_code (r x : pystr) :
  normalize_rarity r = Ok x -> normalize_rarity x = Raise (KeyError x).
Proof.
  unfold normalize_rarity at 1. unfold RARITY_MAPPING, lookup.
  destruct (PyStr.eqb r (py "common"));
    [intros H; injection H as <-; reflexivity|].
  destruct (PyStr.eqb r (py "uncommon"));
    [intros H; injection H as <-; reflexivity|].
  destruct (PyStr.eqb r (py "rare"));
    [intros H; injection H as <-; reflexivity|].
  destruct (PyStr.eqb r (py "mythic"));
    [intros H; injection H as <-; reflexivity|].
  discriminate.
Qed.

(** The only exception of one turn of the card loop is the lookup of the
    rarity. *)
Lemma normalize_card_cases (row : card) :
  (exists c, normalize_card row = Ok c
             /\ normalize_rarity (rarity row) = Ok (rarity c)
             /\ colors c = colors row
             /\ name c = normalize_name (name row)
             /\ card_type c = normalize_type (card_type row)
             /\ text c = normalize_text (name row) (text row))
  \/ (normalize_card row = Raise (KeyError (rarity row))
      /\ normalize_rarity (rarity row) = Raise (KeyError (rarity row))).
Proof.
  unfold normalize_card, bind.
  destruct (normalize_rarity (rarity row)) as [r|e] eqn:E.
  - left. eexists. split; [reflexivity|]. cbn. repeat split; reflexivity.
  - right. unfold normalize_rarity in E.
    destruct (lookup (rarity row) RARITY_MAPPING); [discriminate|].
    injection E as <-. split; reflexivity.
Qed.

Lemma card_loop_unrecognized (rows acc : list card) (row : card) :
  In row rows -> ~ recognized (rarity row) ->
  exists k, card_loop rows acc = Raise (KeyError k).
Proof.
  revert acc; induction rows as [|r rows IH]; intros acc Hin Hr.
  - destruct Hin.
  - simpl. destruct (normalize_card_cases r) as [(c & -> & E & _)|[-> _]].
    + simpl. destruct Hin as [->|Hin].
      * rewrite (normalize_rarity_unrecognized _ Hr) in E. discriminate.
      * apply IH; assumption.
    + simpl. eexists; reflexivity.
Qed.

Lemma card_loop_recognized (rows acc : list card) :
  Forall (fun row => recognized (rarity row)) rows ->
  exists cs, card_loop rows acc = Ok cs.
Proof.
  intros H; revert acc; induction H as [|r rows Hr _ IH]; intros acc.
  - exists acc; reflexivity.
  - simpl. destruct (normalize_card_cases r) as [(c & -> & _)|[_ E]].
    + simpl. apply IH.
    + destruct (normalize_rarity_recognized _ Hr) as [x Hx].
      rewrite Hx in E. discriminate.
Qed.

(** *** The card loop on the rows of the database *)

Lemma normalize_card_rarity (c : card) (x : pystr) :
  normalize_rarity (rarity c) = Ok x ->
  exists c', normalize_card c = Ok c' /\ rarity c' = x.
Proof.
  intros H. unfold normalize_card, bind. rewrite H.
  eexists. split; reflexivity.
Qed.

Lemma normalize_row_strings (r : Sql.row) (ty tx n x : pystr) :
  Sql.col_type r = Some ty -> Sql.col_text r = Some tx ->
  Sql.col_name r = Some n -> Sql.col_rarity r = Some x ->
  Sql.normalize_row r = normalize_card (Sql.bound r ty n x tx).
Proof.
  intros H1 H2 H3 H4. unfold Sql.normalize_row.
  rewrite H1, H2, H3, H4. reflexivity.
Qed.

Lemma present_strings (r : Sql.row) :
  Sql.present r ->
  exists ty tx n,
    Sql.col_type r = Some ty /\ Sql.col_text r = Some tx
    /\ Sql.col_name r = Some n.
Proof.
  intros (H1 & H2 & H3).
  destruct (Sql.col_type r) as [ty|]; [|congruence].
  destruct (Sql.col_text r) as [tx|]; [|congruence].
  destruct (Sql.col_name r) as [n|]; [|congruence].
  exists ty, tx, n. repeat split.
Qed.

(** A row is normalized exactly when its type line, rules text and name
    are there and its rarity is one of the four; otherwise the turn of
    the loop raises the exception of the first column that fails. *)
Lemma normalize_row_ok (r : Sql.row) :
  Sql.present r -> Sql.known_rarity r ->
  exists c, Sql.normalize_row r = Ok c.
Proof.
  intros Hp (x & Hx & Hr).
  destruct (present_strings r Hp) as (ty & tx & n & H1 & H2 & H3).
  rewrite (normalize_row_strings r ty tx n x H1 H2 H3 Hx).
  destruct (normalize_rarity_recognized x Hr) as [y Hy].
  destruct (normalize_card_rarity (Sql.bound r ty n x tx) y Hy)
    as (c & Hc & _).
  exists c. exact Hc.
Qed.

Lemma normalize_row_unrecognized (r : Sql.row) (x : pystr) :
  Sql.present r -> Sql.col_rarity r = Some x -> ~ recognized x ->
  Sql.normalize_row r = Raise (KeyError x).
Proof.
  intros Hp Hx Hr.
  destruct (present_strings r Hp) as (ty & tx & n & H1 & H2 & H3).
  rewrite (normalize_row_strings r ty tx n x H1 H2 H3 Hx).
  destruct (normalize_card_cases (Sql.bound r ty n x tx))
    as [(c & _ & E & _)|[E _]]; [|exact E].
  cbn [rarity Sql.bound] in E.
  rewrite (normalize_rarity_unrecognized x Hr) in E. discriminate.
Qed.

Lemma lookup_rarity_recognized (x : pystr) :
  (exists y, lookup x RARITY_MAPPING = Some y) <-> recognized x.
Proof.
  split.
  - intros [y H]. unfold RARITY_MAPPING, lookup, recognized in *.
    destruct (PyStr.eqb x (py "common")) eqn:E1;
      [apply eqb_eq in E1; tauto|].
    destruct (PyStr.eqb x (py "uncommon")) eqn:E2;
      [apply eqb_eq in E2; tauto|].
    destruct (PyStr.eqb x (py "rare")) eqn:E3;
      [apply eqb_eq in E3; tauto|].
    destruct (PyStr.eqb x (py "mythic")) eqn:E4;
      [apply eqb_eq in E4; tauto|].
    discriminate.
  - intros [-> | [-> | [-> | ->]]]; eexists; vm_compute; reflexivity.
Qed.

Lemma row_exception_none (r : Sql.row) :
  Sql.row_exception r = None <-> Sql.present r /\ Sql.known_rarity r.
Proof.
  unfold Sql.row_exception, Sql.present, Sql.known_rarity. split.
  - destruct (Sql.col_type r); [|discriminate].
    destruct (Sql.col_text r); [|discriminate].
    destruct (Sql.col_name r); [|discriminate].
    destruct (Sql.col_rarity r) as [x|]; [|discriminate].
    destruct (lookup x RARITY_MAPPING) as [y|] eqn:E; [|discriminate].
    intros _. split; [repeat split; discriminate|].
    exists x. split; [reflexivity|].
    apply lookup_rarity_recognized. exists y. exact E.
  - intros [(H1 & H2 & H3) (x & Hx & Hr)].
    destruct (Sql.col_type r); [|congruence].
    destruct (Sql.col_text r); [|congruence].
    destruct (Sql.col_name r); [|congruence].
    rewrite Hx. apply lookup_rarity_recognized in Hr as [y ->].
    reflexivity.
Qed.

Lemma row_exception_some (r : Sql.row) (e : error) :
  Sql.row_exception r = Some e -> Sql.normalize_row r = Raise e.
Proof.
  unfold Sql.row_exception, Sql.normalize_row.
  destruct (Sql.col_type r) as [ty|]; [|intros H; injection H as <-; reflexivity].
  destruct (Sql.col_text r) as [tx|]; [|intros H; injection H as <-; reflexivity].
  destruct (Sql.col_name r) as [n|]; [|intros H; injection H as <-; reflexivity].
  destruct (Sql.col_rarity r) as [x|]; [|intros H; injection H as <-; reflexivity].
  destruct (lookup x RARITY_MAPPING) as [y|] eqn:E; [discriminate|].
  intros H. injection H as <-.
  destruct (normalize_card_cases (Sql.bound r ty n x tx))
    as [(c & _ & F & _)|[F _]]; [|exact F].
  cbn [rarity Sql.bound] in F. unfold normalize_rarity in F.
  rewrite E in F. discriminate.
Qed.

Lemma normalize_row_ok_inv (r : Sql.row) (c : card) :
  Sql.normalize_row r = Ok c -> Sql.present r /\ Sql.known_rarity r.
Proof.
  intros H. apply row_exception_none.
  destruct (Sql.row_exception r) as [e|] eqn:E; [|reflexivity].
  rewrite (row_exception_some r e E) in H. discriminate.
Qed.

Lemma sql_card_loop_ok (rows : list Sql.row) (acc : list card) :
  Forall (fun r => Sql.present r /\ Sql.known_rarity r) rows ->
  exists cs, Sql.card_loop rows acc = Ok cs.
Proof.
  intros H; revert acc; induction H as [|r rows [Hp Hk] _ IH]; intros acc.
  - exists acc; reflexivity.
  - simpl. destruct (normalize_row_ok r Hp Hk) as [c ->]. simpl. apply IH.
Qed.

Lemma sql_card_loop_ok_inv (rows : list Sql.row) (acc cs : list card) :
  Sql.card_loop rows acc = Ok cs ->
  Forall (fun r => Sql.present r /\ Sql.known_rarity r) rows.
Proof.
  revert acc; induction rows as [|r rows IH]; intros acc H; [constructor|].
  simpl in H. destruct (Sql.normalize_row r) as [c|e] eqn:E; [|discriminate].
  simpl in H. constructor; [exact (normalize_row_ok_inv r c E)|].
  exact (IH _ H).
Qed.

(** The first row whose turn raises decides the exception of the
    loop. *)
Lemma sql_card_loop_first (pre post : list Sql.row) (r : Sql.row)
    (acc : list card) (e : error) :
  Forall (fun r' => Sql.present r' /\ Sql.known_rarity r') pre ->
  Sql.normalize_row r = Raise e ->
  Sql.card_loop (pre ++ r :: post) acc = Raise e.
Proof.
  intros Hpre Hr. revert acc.
  induction Hpre as [|r' pre [Hp Hk] _ IH]; intros acc.
  - simpl. rewrite Hr. reflexivity.
  - simpl. destruct (normalize_row_ok r' Hp Hk) as [c ->]. simpl. apply IH.
Qed.

Lemma sql_card_loop_in (rows : list Sql.row) (acc : list card)
    (r : Sql.row) (x : pystr) :
  In r rows -> Sql.col_rarity r = Some x -> ~ recognized x ->
  exists e, Sql.card_loop rows acc = Raise e.
Proof.
  intros Hin Hx Hr.
  destruct (Sql.card_loop rows acc) as [cs|e] eqn:E; [|exists e; reflexivity].
  apply sql_card_loop_ok_inv in E. rewrite Forall_forall in E.
  destruct (E r Hin) as [_ (y & Hy & Hrec)].
  rewrite Hx in Hy. injection Hy as <-. contradiction.
Qed.

Lemma sql_load_raises (db : Sql.database) (set_code : pystr) (e : error) :
  Sql.card_loop (Sql.select_cards db set_code) [] = Raise e ->
  Sql.load_mtg_set db set_code = Raise e.
Proof. intros H. unfold Sql.load_mtg_set, bind. rewrite H. reflexivity. Qed.

Lemma sql_main_raises (environ : mapping) (db : Sql.database)
    (set_code : pystr) (e : error) :
  lookup (py "MTG_BOT_OPENAI_API_KEY") environ <> None ->
  Sql.load_mtg_set db set_code = Raise e ->
  Sql.main environ db set_code = Raise e.
Proof.
  intros Hk H. unfold Sql.main, bind, get_api_key. rewrite H.
  destruct (lookup (py "MTG_BOT_OPENAI_API_KEY") environ);
    [reflexivity|congruence].
Qed.

Lemma sql_main_ok_load (environ : mapping) (db : Sql.database)
    (set_code : pystr) (out : pystr) :
  Sql.main environ db set_code = Ok out ->
  lookup (py "MTG_BOT_OPENAI_API_KEY") environ <> None
  /\ exists v, Sql.load_mtg_set db set_code = Ok v.
Proof.
  unfold Sql.main, bind, get_api_key. intros H.
  destruct (lookup (py "MTG_BOT_OPENAI_API_KEY") environ);
    [|discriminate].
  split; [discriminate|].
  destruct (Sql.load_mtg_set db set_code) as [v|]; [|discriminate].
  exists v. reflexivity.
Qed.

Lemma sql_load_ok_loop (db : Sql.database) (set_code : pystr)
    (v : set_record * list card) :
  Sql.load_mtg_set db set_code = Ok v ->
  Sql.card_loop (Sql.select_cards db set_code) [] = Ok (snd v)
  /\ Sql.select_set db set_code <> [].
Proof.
  unfold Sql.load_mtg_set, bind. intros H.
  destruct (Sql.card_loop (Sql.select_cards db set_code) []) as [cs|];
    [|discriminate].
  destruct (Sql.select_set db set_code) as [|x l]; [discriminate|].
  split; [|discriminate].
  destruct (fold_left _ (x :: l) None); [|discriminate].
  injection H as <-. reflexivity.
Qed.

(** C6, as stated, fails on the exception: a selected card of an
    unknown rarity whose rules text is NULL ends the run at the first
    statement over the text, with an [AttributeError] and no lookup
    error. *)
Lemma C6_null_text_raises_first :
  Sql.col_rarity (Sql.vanilla (py "special")) = Some (py "special")
  /\ ~ recognized (py "special")
  /\ Sql.select_cards Sql.db_vanilla_special (py "DMU")
     = [Sql.vanilla (py "special")]
  /\ Sql.main Examples.environ Sql.db_vanilla_special (py "DMU")
     = Raise (AttributeError (py "replace")).
Proof.
  split; [reflexivity|]. split.
  - intros [H|[H|[H|H]]]; vm_compute in H; discriminate.
  - split; vm_compute; reflexivity.
Qed.

(** C6, amended: for every row whose type line, rules text and name are
    there, the rarity is looked up strictly: [common], [uncommon],
    [rare] and [mythic] give a card that carries C, U, R and M, and any
    other rarity string raises the lookup error for it.  A run in which
    a selected row has such a rarity never prints anything; it ends with
    the lookup error of that row when every selected row before it is
    normalized. *)
Theorem C6_rarity_strict :
  (normalize_rarity (py "common") = Ok (py "C")
   /\ normalize_rarity (py "uncommon") = Ok (py "U")
   /\ normalize_rarity (py "rare") = Ok (py "R")
   /\ normalize_rarity (py "mythic") = Ok (py "M"))
  /\ (forall r x y,
        Sql.present r -> Sql.col_rarity r = Some x ->
        In (x, y) RARITY_MAPPING ->
        exists c, Sql.normalize_row r = Ok c /\ rarity c = y)
  /\ (forall r x,
        Sql.present r -> Sql.col_rarity r = Some x -> ~ recognized x ->
        Sql.normalize_row r = Raise (KeyError x))
  /\ (forall environ db set_code r x,
        In r (Sql.select_cards db set_code) ->
        Sql.col_rarity r = Some x -> ~ recognized x ->
        forall out, Sql.main environ db set_code <> Ok out)
  /\ (forall environ db set_code pre r post x,
        Sql.select_cards db set_code = pre ++ r :: post ->
        Forall (fun r' => Sql.present r' /\ Sql.known_rarity r') pre ->
        Sql.present r -> Sql.col_rarity r = Some x -> ~ recognized x ->
        Sql.load_mtg_set db set_code = Raise (KeyError x)
        /\ (lookup (py "MTG_BOT_OPENAI_API_KEY") environ <> None ->
            Sql.main environ db set_code = Raise (KeyError x))).
Proof.
  split; [repeat split; vm_compute; reflexivity|].
  split; [|split; [|split]].
  - intros r x y Hp Hx Hin.
    destruct (present_strings r Hp) as (ty & tx & n & H1 & H2 & H3).
    rewrite (normalize_row_strings r ty tx n x H1 H2 H3 Hx).
    apply normalize_card_rarity. cbn [rarity Sql.bound].
    destruct Hin as [E|[E|[E|[E|[]]]]]; injection E as <- <-;
      vm_compute; reflexivity.
  - exact normalize_row_unrecognized.
  - intros environ db set_code r x Hin Hx Hr out H.
    apply sql_main_ok_load in H as [_ [v Hv]].
    apply sql_load_ok_loop in Hv as [Hv _].
    destruct (sql_card_loop_in _ [] r x Hin Hx Hr) as [e He].
    congruence.
  - intros environ db set_code pre r post x Hsel Hpre Hp Hx Hr.
    assert (Sql.load_mtg_set db set_code = Raise (KeyError x)) as L.
    { apply sql_load_raises. rewrite Hsel.
      apply sql_card_loop_first; [exact Hpre|].
      apply normalize_row_unrecognized; assumption. }
    split; [exact L|]. intros Hk. apply sql_main_raises; assumption.
Qed.

(** A card of rarity [special] after a common one. *)
Lemma C6_rarity_strict_witness :
  Sql.select_cards Sql.db_special (py "DMU")
  = [Sql.of_card Examples.opt] ++ Sql.of_card Examples.timeshifted :: []
  /\ (exists c, Sql.normalize_row (Sql.of_card Examples.opt) = Ok c
                /\ rarity c = py "C")
  /\ Sql.normalize_row (Sql.of_card Examples.timeshifted)
     = Raise (KeyError (py "special"))
  /\ Sql.main Examples.environ Sql.db_special (py "DMU")
     = Raise (KeyError (py "special"))
  /\ forall out, Sql.main [] Sql.db_special (py "DMU") <> Ok out.
Proof.
  assert (Sql.select_cards Sql.db_special (py "DMU")
          = [Sql.of_card Examples.opt]
            ++ Sql.of_card Examples.timeshifted :: []) as S by reflexivity.
  assert (Sql.present (Sql.of_card Examples.opt)) as P1
    by (repeat split; discriminate).
  assert (Sql.present (Sql.of_card Examples.timeshifted)) as P2
    by (repeat split; discriminate).
  assert (~ recognized (py "special")) as R
    by (intros [H|[H|[H|H]]]; vm_compute in H; discriminate).
  assert (Forall (fun r' => Sql.present r' /\ Sql.known_rarity r')
            [Sql.of_card Examples.opt]) as F.
  { constructor; [|constructor]. split; [exact P1|].
    exists (py "common"). split; [reflexivity|left; reflexivity]. }
  destruct C6_rarity_strict as (_ & Hletter & Hkey & Hout & Hfirst).
  split; [exact S|].
  split; [apply (Hletter _ (py "common")); [exact P1|reflexivity|left; reflexivity]|].
  split; [apply Hkey; [exact P2|reflexivity|exact R]|].
  split.
  - apply (Hfirst Examples.environ _ _ _ _ _ (py "special") S F P2 eq_refl R).
    discriminate.
  - apply (Hout [] _ _ (Sql.of_card Examples.timeshifted) (py "special"));
      [right; left; reflexivity|reflexivity|exact R].
Defined.

(** ** C7: no row for the set *)

Lemma select_set_empty (db : database) (set_code : pystr) :
  (forall r, In r (sets db) -> code r <> set_code) ->
  select_set db set_code = [].
Proof.
  intros H. unfold select_set.
  replace (filter (fun r => PyStr.eqb (code r) set_code) (sets db))
    with (@nil sets_row); [reflexivity|].
  symmetry. induction (sets db) as [|r l IH]; [reflexivity|].
  simpl. destruct (PyStr.eqb (code r) set_code) eqn:E.
  - apply eqb_eq in E. exfalso. apply (H r); [left; reflexivity|exact E].
  - apply IH. intros r' Hr'. apply H. right; exact Hr'.
Qed.

Lemma sql_select_set_empty (db : Sql.database) (set_code : pystr) :
  Sql.select_set db set_code = [] <->
  (forall r, In r (Sql.sets db) -> code r <> set_code).
Proof.
  unfold Sql.select_set. split.
  - intros H r Hr E.
    destruct (filter (fun r => PyStr.eqb (code r) set_code) (Sql.sets db))
      as [|x rest] eqn:F; [|discriminate].
    assert (In r (filter (fun r => PyStr.eqb (code r) set_code)
                         (Sql.sets db))) as Hin
      by (apply filter_In; split; [exact Hr|apply eqb_eq; exact E]).
    rewrite F in Hin. destruct Hin.
  - intros H.
    replace (filter (fun r => PyStr.eqb (code r) set_code) (Sql.sets db))
      with (@nil sets_row); [reflexivity|].
    symmetry. induction (Sql.sets db) as [|r l IH]; [reflexivity|].
    simpl. destruct (PyStr.eqb (code r) set_code) eqn:E.
    + apply eqb_eq in E. exfalso.
      apply (H r); [left; reflexivity|exact E].
    + apply IH. intros r' Hr'. apply H. right; exact Hr'.
Qed.




(** ** C8: the names of the basic lands *)

Lemma one_pass_absent (d : mapping) (s : pystr) :
  free_of_keys d s = true -> for_items d replace_exact s = s.
Proof.
  unfold for_items. induction d as [|[k v] d IH]; intros H; [reflexivity|].
  simpl in H |- *. apply andb_true_iff in H as [Hk Hd].
  apply negb_true_iff in Hk.
  unfold replace_exact at 2. rewrite (replace_absent _ _ _ Hk).
  apply IH. exact Hd.
Qed.

Lemma one_pass_length_le (d : mapping) (s : pystr) :
  shrinking d = true ->
  (List.length (for_items d replace_exact s) <= List.length s)%nat.
Proof.
  unfold for_items. revert s.
  induction d as [|[k v] d IH]; intros s H; [simpl; lia|].
  simpl in H |- *. apply andb_true_iff in H as [Hk Hd].
  apply Nat.ltb_lt in Hk.
  specialize (IH (replace_exact k v s) Hd).
  assert (List.length (replace_exact k v s) <= List.length s)%nat.
  { apply replace_length_le; [|lia].
    destruct k; [simpl in Hk; lia|discriminate]. }
  lia.
Qed.

Lemma one_pass_length_lt (d : mapping) (s : pystr) :
  shrinking d = true -> free_of_keys d s = false ->
  (List.length (for_items d replace_exact s) < List.length s)%nat.
Proof.
  revert s. induction d as [|[k v] d IH]; intros s H F; [discriminate|].
  simpl in H, F. apply andb_true_iff in H as [Hk Hd].
  apply Nat.ltb_lt in Hk.
  change (for_items ((k, v) :: d) replace_exact s)
    with (for_items d replace_exact (replace_exact k v s)).
  destruct (contains k s) eqn:E.
  - pose proof (one_pass_length_le d (replace_exact k v s) Hd).
    pose proof (replace_length_lt k v s Hk E).
    unfold replace_exact in *. lia.
  - simpl in F. unfold replace_exact at 2.
    rewrite (replace_absent _ _ _ E). apply IH; assumption.
Qed.

Lemma normalize_name_fixed (n : pystr) :
  normalize_name n = n <-> free_of_keys LAND_MAPPING n = true.
Proof.
  unfold normalize_name. split.
  - intros H. destruct (free_of_keys LAND_MAPPING n) eqn:F; [reflexivity|].
    pose proof (one_pass_length_lt LAND_MAPPING n eq_refl F) as L.
    rewrite H in L. lia.
  - apply one_pass_absent.
Qed.

(** C8, as stated, fails on its second half: the loop over the name
    looks at no type line, and the name of a creature that holds the
    name of a basic land is rewritten too. *)
Lemma C8_nonbasic_name_rewritten :
  exists c,
    normalize_card Examples.jasconius = Ok c
    /\ name c = py "IsL Fish Jasconius"
    /\ name c <> name Examples.jasconius
    /\ contains (py "Basic") (card_type Examples.jasconius) = false.
Proof.
  eexists. split; [reflexivity|]. split; [vm_compute; reflexivity|].
  split; [vm_compute; discriminate|vm_compute; reflexivity].
Qed.

(** C8, amended: the card named [Forest] has its name and its type line
    rewritten by the Land table; and the name pass leaves the name of a
    card unchanged exactly when none of the six keys of the Land table
    occurs in it, in the case of the table, whatever the type of the
    card. *)
Theorem C8_land_names :
  (exists c,
      normalize_card Examples.forest = Ok c
      /\ name c = py "FoL"
      /\ card_type c = py "BaL L " ++ [ch_emdash] ++ py " FoL")
  /\ (forall row c,
        normalize_card row = Ok c ->
        (name c = name row <-> free_of_keys LAND_MAPPING (name row) = true)).
Proof.
  split.
  - eexists. split; [reflexivity|]. split; vm_compute; reflexivity.
  - intros row c H.
    destruct (normalize_card_cases row) as [(c' & E & _ & _ & Hn & _)|[E _]];
      rewrite E in H; [|discriminate].
    injection H as <-. rewrite Hn. apply normalize_name_fixed.
Qed.

(** The name [Opt] holds no key of the Land table and is kept. *)
Lemma C8_land_names_witness :
  normalize_card Examples.opt = Ok
    (Examples.blue (py "Opt") (py "I") (Some (py "U")) None None (py "C")
       (py "SC 1. DAC."))
  /\ free_of_keys LAND_MAPPING (name Examples.opt) = true
  /\ py "Opt" = name Examples.opt.
Proof.
  assert (normalize_card Examples.opt = Ok
    (Examples.blue (py "Opt") (py "I") (Some (py "U")) None None (py "C")
       (py "SC 1. DAC."))) as E by (vm_compute; reflexivity).
  destruct C8_land_names as [_ H].
  split; [exact E|]. split; [reflexivity|].
  apply (H _ _ E). reflexivity.
Defined.

(** ** C10: the colour of the selected cards *)

Lemma select_cards_blue (db : database) (set_code : pystr) :
  Forall is_blue (select_cards db set_code).
Proof.
  apply Forall_forall. intros c Hc. unfold select_cards in Hc.
  apply in_map_iff in Hc as (r & <- & Hr).
  apply filter_In in Hr as [_ Hr].
  apply andb_true_iff in Hr as [_ Hr]. unfold is_blue.
  destruct (colors (columns r)) as [u|]; [|discriminate].
  apply eqb_eq in Hr. subst u. reflexivity.
Qed.

Lemma card_loop_blue (rows acc cs : list card) :
  Forall is_blue rows -> Forall is_blue acc ->
  card_loop rows acc = Ok cs -> Forall is_blue cs.
Proof.
  intros Hrows; revert acc; induction Hrows as [|r rows Hr _ IH];
    intros acc Hacc H.
  - simpl in H. injection H as <-. exact Hacc.
  - simpl in H.
    destruct (normalize_card_cases r) as [(c & E & _ & Hc & _)|[E _]];
      rewrite E in H; [|discriminate].
    simpl in H. apply (IH (acc ++ [c])); [|exact H].
    apply Forall_app. split; [exact Hacc|].
    constructor; [|constructor]. unfold is_blue in *. congruence.
Qed.

(** C10: whatever the set code, every card that the query selects has
    the colours [U], and so has every card that [load_mtg_set] returns
    and [main] serializes. *)
Theorem C10_only_blue (db : database) (set_code : pystr) :
  Forall is_blue (select_cards db set_code)
  /\ (forall set_data cs,
        load_mtg_set db set_code = Ok (set_data, cs) ->
        Forall is_blue cs)
  /\ (forall environ out,
        main environ db set_code = Ok out ->
        exists set_data cs,
          out = generate_prompt set_data cs /\ Forall is_blue cs).
Proof.
  assert (forall set_data cs,
             load_mtg_set db set_code = Ok (set_data, cs) ->
             Forall is_blue cs) as Hload.
  { intros set_data cs H. unfold load_mtg_set, bind in H.
    destruct (card_loop (select_cards db set_code) []) as [cs'|] eqn:E;
      [|discriminate].
    destruct (fold_left _ _ _); [|discriminate].
    injection H as _ <-.
    apply (card_loop_blue _ [] _ (select_cards_blue db set_code));
      [constructor|exact E]. }
  split; [apply select_cards_blue|]. split; [exact Hload|].
  intros environ out H. unfold main, bind in H.
  destruct (get_api_key environ); [|discriminate].
  destruct (load_mtg_set db set_code) as [[set_data cs]|];
    [|discriminate].
  injection H as <-. exists set_data, cs.
  split; [reflexivity|]. exact (Hload _ _ eq_refl).
Qed.

(** Of the two cards of the set, the blue one is returned. *)
Lemma C10_only_blue_witness :
  exists set_data cs,
    load_mtg_set Examples.db (py "DMU") = Ok (set_data, cs)
    /\ List.length cs = 1%nat
    /\ Forall is_blue cs.
Proof.
  eexists. eexists. split; [vm_compute; reflexivity|].
  split; [reflexivity|].
  destruct (C10_only_blue Examples.db (py "DMU")) as (_ & H & _).
  eapply H. vm_compute. reflexivity.
Defined.

(** * Further properties of the pipeline *)

(** ** The braces *)

Lemma strip_braces_filter (s : pystr) :
  for_items MANA_COST_MAPPING replace_exact s = without_braces s.
Proof.
  change (for_items MANA_COST_MAPPING replace_exact s)
    with (replace [ch_rbrace] [] (replace [ch_lbrace] [] s)).
  rewrite !replace_char_filter. unfold without_braces, is_brace.
  induction s as [|c s IH]; [reflexivity|].
  cbn [filter]. rewrite (N.eqb_sym c ch_lbrace), (N.eqb_sym c ch_rbrace).
  destruct (ch_lbrace =? c) eqn:El; cbn [negb orb filter].
  - exact IH.
  - destruct (ch_rbrace =? c) eqn:Er; cbn [negb]; [exact IH|].
    f_equal. exact IH.
Qed.

Lemma without_braces_no_brace (s : pystr) : no_brace (without_braces s).
Proof.
  unfold no_brace, without_braces, is_brace.
  split; intros H; apply filter_In in H as [_ H]; vm_compute in H;
    discriminate.
Qed.

Lemma normalize_mana_cost_some (m : pystr) :
  normalize_mana_cost (Some m) = Some (without_braces m).
Proof.
  destruct m as [|c m]; [reflexivity|].
  unfold normalize_mana_cost. rewrite strip_braces_filter. reflexivity.
Qed.

(** X1: the mana cost comes out as the cost selected without its
    braces, every other character kept in its place; an absent cost
    stays absent. *)
Theorem mana_cost_without_braces :
  normalize_mana_cost None = None
  /\ forall m,
       normalize_mana_cost (Some m) = Some (without_braces m)
       /\ no_brace (without_braces m).
Proof.
  split; [reflexivity|]. intros m. split.
  - apply normalize_mana_cost_some.
  - apply without_braces_no_brace.
Qed.

(** ** What the last statements over the text keep *)

Lemma trims_refl (s : pystr) : trims s s.
Proof. induction s; constructor; assumption. Qed.

Lemma trims_drop_all (s : pystr) : trims s [].
Proof. induction s; constructor; assumption. Qed.

Lemma trims_put_all (x s r : pystr) :
  forallb inserted x = true -> trims s r -> trims s (x ++ r).
Proof.
  induction x as [|c x IH]; intros H T; [exact T|].
  simpl in H. apply andb_true_iff in H as [Hc Hx].
  simpl. apply trims_put; [exact Hc|]. apply IH; assumption.
Qed.

Lemma trims_in (s r : pystr) (c : char) :
  trims s r -> inserted c = false -> In c r -> In c s.
Proof.
  intros T Hc. induction T as [|d s r T IH|d s r T IH|d s r Hd T IH];
    intros H.
  - exact H.
  - destruct H as [->|H]; [left; reflexivity|right; apply IH; exact H].
  - right. apply IH. exact H.
  - destruct H as [->|H]; [congruence|apply IH; exact H].
Qed.

Lemma trims_rparen (s r : pystr) :
  trims s r ->
  existsb (N.eqb ch_rparen) r = true -> existsb (N.eqb ch_rparen) s = true.
Proof.
  intros T H. apply existsb_exists in H as (x & Hx & E).
  apply N.eqb_eq in E. subst x.
  apply existsb_exists. exists ch_rparen. split; [|reflexivity].
  apply (trims_in s r); [exact T|reflexivity|exact Hx].
Qed.

Lemma trims_has_span (s r : pystr) :
  trims s r -> has_span r = true -> has_span s = true.
Proof.
  intros T. induction T as [|d s r T IH|d s r T IH|d s r Hd T IH];
    intros H.
  - exact H.
  - simpl in H |- *. apply orb_true_iff in H as [H|H].
    + apply andb_true_iff in H as [H1 H2].
      rewrite H1, (trims_rparen _ _ T H2). reflexivity.
    + rewrite (IH H). apply orb_true_r.
  - simpl. rewrite (IH H). apply orb_true_r.
  - simpl in H. apply orb_true_iff in H as [H|H]; [|exact (IH H)].
    apply andb_true_iff in H as [H _]. apply N.eqb_eq in H. subst d.
    vm_compute in Hd. discriminate.
Qed.

Lemma trims_sub_parens_from (s : pystr) (k : nat) :
  trims s (sub_parens_from s k).
Proof.
  revert k; induction s as [|c s IH]; intros k; [constructor|].
  destruct k as [|k]; simpl.
  - destruct (c =? ch_lparen).
    + destruct (greedy_close s); constructor; apply IH.
    + constructor; apply IH.
  - constructor; apply IH.
Qed.

Lemma trims_replace_from (old new s : pystr) (k : nat) :
  forallb inserted new = true -> trims s (replace_from old new s k).
Proof.
  intros Hn. revert k; induction s as [|c s IH]; intros k; [constructor|].
  destruct k as [|k].
  - rewrite replace_from_cons_0. destruct (starts_with old (c :: s)).
    + apply trims_put_all; [exact Hn|]. constructor. apply IH.
    + constructor. apply IH.
  - rewrite replace_from_cons_skip. constructor. apply IH.
Qed.

Lemma trims_replace (old new s : pystr) :
  forallb inserted new = true -> trims s (replace old new s).
Proof.
  intros Hn. destruct old as [|o old]; [|apply trims_replace_from; exact Hn].
  unfold replace. induction s as [|c s IH].
  - cbn [flat_map]. apply trims_put_all; [exact Hn|constructor].
  - cbn [flat_map app]. apply trims_put_all; [exact Hn|].
    constructor. exact IH.
Qed.

Lemma trims_lstrip (s : pystr) : trims s (lstrip s).
Proof.
  induction s as [|c s IH]; [constructor|].
  simpl. destruct (isspace c); [constructor; exact IH|apply trims_refl].
Qed.

Lemma trims_rstrip (s : pystr) : trims s (rstrip s).
Proof.
  induction s as [|c s IH]; [constructor|].
  simpl. destruct (rstrip s) as [|d r].
  - destruct (isspace c); [apply trims_drop_all|].
    constructor. apply trims_drop_all.
  - constructor. exact IH.
Qed.

Lemma trims_sub_spaces_from (b : bool) (s : pystr) :
  trims s (sub_spaces_from b s).
Proof.
  revert b; induction s as [|c s IH]; intros b; [constructor|].
  simpl. destruct (isspace c).
  - destruct b; [constructor; apply IH|].
    apply trims_put; [reflexivity|]. constructor. apply IH.
  - constructor. apply IH.
Qed.

(** A character that is neither of the placeholder nor the space is in
    the normalized text only if the text had it when the reminder text
    was removed; and no span of parentheses comes back. *)
Lemma normalize_text_in (name text : pystr) (c : char) :
  inserted c = false ->
  In c (normalize_text name text) -> In c (text_without_reminders text).
Proof.
  intros Hc H. unfold normalize_text, sub_spaces, strip in H.
  apply (trims_in _ _ c (trims_sub_spaces_from _ _) Hc) in H.
  apply (trims_in _ _ c (trims_rstrip _) Hc) in H.
  apply (trims_in _ _ c (trims_lstrip _) Hc) in H.
  change (text_with_placeholder name text)
    with (replace name (py "NAME") (text_without_reminders text)) in H.
  apply (trims_in _ _ c (trims_replace name (py "NAME") _ eq_refl) Hc) in H.
  exact H.
Qed.

Lemma normalize_text_span (name text : pystr) :
  has_span (normalize_text name text) = true ->
  has_span (text_without_reminders text) = true.
Proof.
  intros H. unfold normalize_text, sub_spaces, strip in H.
  apply (trims_has_span _ _ (trims_sub_spaces_from _ _)) in H.
  apply (trims_has_span _ _ (trims_rstrip _)) in H.
  apply (trims_has_span _ _ (trims_lstrip _)) in H.
  change (text_with_placeholder name text)
    with (replace name (py "NAME") (text_without_reminders text)) in H.
  apply (trims_has_span _ _ (trims_replace name (py "NAME") _ eq_refl)) in H.
  exact H.
Qed.

Lemma brace_not_in_text (name text : pystr) (c : char) :
  is_brace c = true -> ~ In c (normalize_text name text).
Proof.
  intros Hc Hin.
  assert (inserted c = false) as Hi.
  { unfold is_brace in Hc. apply orb_true_iff in Hc as [E|E];
      apply N.eqb_eq in E; subst c; reflexivity. }
  apply (normalize_text_in _ _ _ Hi) in Hin.
  unfold text_without_reminders, sub_parens in Hin.
  apply (trims_in _ _ c (trims_sub_parens_from _ _) Hi) in Hin.
  rewrite strip_braces_filter in Hin.
  apply filter_In in Hin as [_ Hin]. rewrite Hc in Hin. discriminate.
Qed.

(** X2: the normalized rules text has no brace, whatever the name and
    the text are: the braces of the mana symbols are stripped and none
    of the later statements puts one back. *)
Theorem normalize_text_no_brace (name text : pystr) :
  no_brace (normalize_text name text)
  /\ without_braces (normalize_text name text) = normalize_text name text.
Proof.
  assert (no_brace (normalize_text name text)) as H
    by (split; apply brace_not_in_text; reflexivity).
  split; [exact H|].
  unfold without_braces.
  induction (normalize_text name text) as [|c s IH]; [reflexivity|].
  destruct H as [Hl Hr]. cbn [filter].
  destruct (is_brace c) eqn:E.
  - exfalso. unfold is_brace in E. apply orb_true_iff in E as [E|E];
      apply N.eqb_eq in E; subst c; [apply Hl|apply Hr]; left; reflexivity.
  - cbn [negb]. f_equal. apply IH. split.
    + intros F; apply Hl; right; exact F.
    + intros F; apply Hr; right; exact F.
Qed.

(** ** Reminder text: no span of parentheses is left *)

Lemma In_replace_from (c : char) (old new s : pystr) (k : nat) :
  In c (replace_from old new s k) -> In c s \/ In c new.
Proof.
  revert k; induction s as [|d s IH]; intros k H; [destruct H|].
  destruct k as [|k].
  - rewrite replace_from_cons_0 in H. destruct (starts_with old (d :: s)).
    + apply in_app_or in H as [H|H]; [right; exact H|].
      destruct (IH _ H); [left; right|right]; assumption.
    + destruct H as [->|H]; [left; left; reflexivity|].
      destruct (IH _ H); [left; right|right]; assumption.
  - rewrite replace_from_cons_skip in H.
    destruct (IH _ H); [left; right|right]; assumption.
Qed.

Lemma In_replace (c : char) (old new s : pystr) :
  In c (replace old new s) -> In c s \/ In c new.
Proof.
  destruct old as [|o old]; [|apply In_replace_from].
  unfold replace. intros H. apply in_app_or in H as [H|H]; [right; exact H|].
  apply in_flat_map in H as (d & Hd & [->|H]); [left|right]; assumption.
Qed.

Lemma replace_char_gone (c : char) (new s : pystr) :
  ~ In c new -> ~ In c (replace [c] new s).
Proof.
  intros Hn. unfold replace. induction s as [|d s IH]; [intros []|].
  rewrite replace_from_cons_0. simpl starts_with. rewrite andb_true_r.
  simpl List.length. simpl Nat.sub.
  destruct (N.eqb_spec c d) as [->|Hd]; intros H.
  - apply in_app_or in H as [H|H]; [exact (Hn H)|exact (IH H)].
  - destruct H as [H|H]; [congruence|exact (IH H)].
Qed.

Lemma for_items_both_lack (c : char) (d : mapping) (s : pystr) :
  codes_lack c d = true -> ~ In c s ->
  ~ In c (for_items d replace_both s).
Proof.
  unfold for_items. revert s.
  induction d as [|[k v] d IH]; intros s Hd Hs; [exact Hs|].
  simpl in Hd. apply andb_true_iff in Hd as [Hv Hd].
  apply negb_true_iff in Hv. apply existsb_eqb_false in Hv.
  simpl. apply IH; [exact Hd|]. unfold replace_both. intros H.
  apply In_replace in H as [H|H]; [|exact (Hv H)].
  apply In_replace in H as [H|H]; [exact (Hs H)|exact (Hv H)].
Qed.

Lemma for_items_exact_lack (c : char) (d : mapping) (s : pystr) :
  codes_lack c d = true -> ~ In c s ->
  ~ In c (for_items d replace_exact s).
Proof.
  unfold for_items. revert s.
  induction d as [|[k v] d IH]; intros s Hd Hs; [exact Hs|].
  simpl in Hd. apply andb_true_iff in Hd as [Hv Hd].
  apply negb_true_iff in Hv. apply existsb_eqb_false in Hv.
  simpl. apply IH; [exact Hd|]. unfold replace_exact. intros H.
  apply In_replace in H as [H|H]; [exact (Hs H)|exact (Hv H)].
Qed.

(** The first pair of the Phrase table takes every newline away, and no
    later code brings one back. *)
Lemma phrases_no_newline (text : pystr) :
  ~ In ch_newline (for_items TEXT_MAPPING replace_both text).
Proof.
  change (for_items TEXT_MAPPING replace_both text)
    with (for_items (tl TEXT_MAPPING) replace_both
            (replace (lower [ch_newline]) (py " ")
               (replace [ch_newline] (py " ") text))).
  apply for_items_both_lack; [vm_compute; reflexivity|].
  intros H. apply In_replace in H as [H|H].
  - revert H. apply replace_char_gone. vm_compute. intuition discriminate.
  - vm_compute in H. intuition discriminate.
Qed.

Lemma before_reminders_no_newline (text : pystr) :
  ~ In ch_newline
      (for_items MANA_COST_MAPPING replace_exact
        (for_items NUMBER_MAPPING replace_both
          (for_items KEYWORD_MAPPING replace_both
            (for_items LAND_MAPPING replace_both
              (for_items SUB_TYPE_MAPPING replace_both
                (for_items SUPER_TYPE_MAPPING replace_both
                  (for_items TEXT_MAPPING replace_both text))))))).
Proof.
  apply for_items_exact_lack; [vm_compute; reflexivity|].
  do 5 (apply for_items_both_lack; [vm_compute; reflexivity|]).
  apply phrases_no_newline.
Qed.

Lemma existsb_rparen_false (s : pystr) :
  ~ In ch_rparen s -> existsb (N.eqb ch_rparen) s = false.
Proof.
  intros H. destruct (existsb (N.eqb ch_rparen) s) eqn:E; [|reflexivity].
  apply existsb_exists in E as (x & Hx & E). apply N.eqb_eq in E.
  subst x. contradiction.
Qed.

Lemma no_rparen_no_span (s : pystr) :
  ~ In ch_rparen s -> has_span s = false.
Proof.
  induction s as [|c s IH]; intros H; [reflexivity|].
  simpl. rewrite IH by (intros F; apply H; right; exact F).
  rewrite existsb_rparen_false by (intros F; apply H; right; exact F).
  rewrite andb_false_r. reflexivity.
Qed.

Lemma greedy_close_none_inv (s : pystr) :
  ~ In ch_newline s -> greedy_close s = None -> ~ In ch_rparen s.
Proof.
  induction s as [|c s IH]; intros Hn H; [intros []|].
  simpl in H. destruct (N.eqb_spec c ch_newline) as [->|Hc].
  - exfalso. apply Hn. left; reflexivity.
  - destruct (greedy_close s); [discriminate|].
    destruct (N.eqb_spec c ch_rparen) as [->|Hr]; [discriminate|].
    intros [F|F]; [congruence|].
    revert F. apply IH; [|reflexivity].
    intros F. apply Hn. right; exact F.
Qed.

Lemma greedy_close_some (s : pystr) (n : nat) :
  ~ In ch_newline s -> greedy_close s = Some n ->
  exists b c, s = b ++ ch_rparen :: c /\ n = S (List.length b)
              /\ ~ In ch_rparen c.
Proof.
  revert n; induction s as [|x s IH]; intros n Hn H; [discriminate|].
  simpl in H. destruct (x =? ch_newline); [discriminate|].
  assert (~ In ch_newline s) as Hs by (intros F; apply Hn; right; exact F).
  destruct (greedy_close s) as [m|] eqn:E.
  - injection H as <-. destruct (IH m Hs eq_refl) as (b & c & -> & -> & Hc).
    exists (x :: b), c. repeat split; assumption.
  - destruct (N.eqb_spec x ch_rparen) as [->|]; [|discriminate].
    injection H as <-. exists [], s. repeat split.
    apply greedy_close_none_inv; assumption.
Qed.

Lemma sub_parens_no_span (s : pystr) :
  ~ In ch_newline s -> has_span (sub_parens s) = false.
Proof.
  unfold sub_parens. induction s as [|x s IH]; intros Hn; [reflexivity|].
  assert (~ In ch_newline s) as Hs by (intros F; apply Hn; right; exact F).
  simpl. destruct (x =? ch_lparen) eqn:Ex.
  - destruct (greedy_close s) as [n|] eqn:E.
    + destruct (greedy_close_some s n Hs E) as (b & c & -> & -> & Hc).
      replace (b ++ ch_rparen :: c) with ((b ++ [ch_rparen]) ++ c)
        by (rewrite <- app_assoc; reflexivity).
      replace (S (List.length b)) with (List.length (b ++ [ch_rparen]))
        by (rewrite length_app; simpl; lia).
      rewrite sub_parens_from_skip, sub_parens_unclosed by exact Hc.
      apply no_rparen_no_span. exact Hc.
    + pose proof (greedy_close_none_inv s Hs E) as Hr.
      rewrite sub_parens_unclosed by exact Hr.
      apply no_rparen_no_span. intros [F|F]; [|exact (Hr F)].
      subst x. discriminate.
  - simpl. rewrite IH by exact Hs. rewrite Ex. reflexivity.
Qed.

Lemma has_span_intro (a b c : pystr) :
  has_span (a ++ ch_lparen :: b ++ ch_rparen :: c) = true.
Proof.
  induction a as [|x a IH].
  - simpl. apply orb_true_iff. left.
    apply existsb_exists. exists ch_rparen. split; [|reflexivity].
    apply in_or_app. right. left. reflexivity.
  - simpl. rewrite IH. apply orb_true_r.
Qed.

Lemma span_not_in_text (name text : pystr) :
  has_span (normalize_text name text) = false.
Proof.
  destruct (has_span (normalize_text name text)) eqn:E; [|reflexivity].
  apply normalize_text_span in E.
  unfold text_without_reminders in E.
  rewrite sub_parens_no_span in E by apply before_reminders_no_newline.
  discriminate.
Qed.

(** X4: the normalized rules text has no parenthetical span: no opening
    parenthesis with a closing one anywhere after it. *)
Theorem normalize_text_no_span (name text : pystr) :
  has_span (normalize_text name text) = false
  /\ forall a b c,
       normalize_text name text <> a ++ ch_lparen :: b ++ ch_rparen :: c.
Proof.
  pose proof (span_not_in_text name text) as H.
  split; [exact H|].
  intros a b c E. rewrite E, has_span_intro in H. discriminate.
Qed.

(** ** The whitespace of the normalized text *)

Lemma sub_spaces_from_only_space (b : bool) (s : pystr) :
  Forall (fun c => isspace c = true -> c = ch_space) (sub_spaces_from b s).
Proof.
  revert b; induction s as [|c s IH]; intros b; [constructor|].
  simpl. destruct (isspace c) eqn:E.
  - destruct b; [apply IH|]. constructor; [reflexivity|apply IH].
  - constructor; [congruence|apply IH].
Qed.

Lemma sub_spaces_from_adjacent (b : bool) (s : pystr) :
  adjacent_spaces (sub_spaces_from b s) = false
  /\ (b = true -> head_ok (sub_spaces_from b s) = true).
Proof.
  revert b; induction s as [|c s IH]; intros b; [split; reflexivity|].
  simpl. destruct (isspace c) eqn:E.
  - destruct b; [apply IH|]. split; [|discriminate].
    destruct (IH true) as [Ha Hh]. specialize (Hh eq_refl).
    simpl. destruct (sub_spaces_from true s) as [|d r]; [reflexivity|].
    simpl in Hh. apply negb_true_iff in Hh. rewrite Hh, Ha. reflexivity.
  - destruct (IH false) as [Ha _]. split.
    + simpl. destruct (sub_spaces_from false s) as [|d r]; [reflexivity|].
      rewrite E, Ha. reflexivity.
    + intros _. simpl. rewrite E. reflexivity.
Qed.

Lemma head_ok_lstrip (s : pystr) : head_ok (lstrip s) = true.
Proof.
  induction s as [|c s IH]; [reflexivity|].
  simpl. destruct (isspace c) eqn:E; [exact IH|].
  simpl. rewrite E. reflexivity.
Qed.

Lemma head_ok_rstrip (s : pystr) :
  head_ok s = true -> head_ok (rstrip s) = true.
Proof.
  destruct s as [|c s]; [reflexivity|]. simpl. intros H.
  destruct (rstrip s); [|exact H].
  apply negb_true_iff in H. rewrite H. simpl. rewrite H. reflexivity.
Qed.

Lemma head_ok_sub_spaces_from (b : bool) (s : pystr) :
  head_ok s = true -> head_ok (sub_spaces_from b s) = true.
Proof.
  destruct s as [|c s]; [reflexivity|]. simpl. intros H.
  apply negb_true_iff in H. rewrite H. simpl. rewrite H. reflexivity.
Qed.

Lemma lstrip_head_ok (s : pystr) : head_ok s = true -> lstrip s = s.
Proof.
  destruct s as [|c s]; [reflexivity|]. simpl. intros H.
  apply negb_true_iff in H. rewrite H. reflexivity.
Qed.

Lemma rstrip_twice (s : pystr) : rstrip (rstrip s) = rstrip s.
Proof.
  induction s as [|c s IH]; [reflexivity|].
  simpl. destruct (rstrip s) as [|d r] eqn:E.
  - destruct (isspace c) eqn:Ec; [reflexivity|].
    simpl. rewrite Ec. reflexivity.
  - change (rstrip (c :: d :: r))
      with (match rstrip (d :: r) with
            | [] => if isspace c then [] else [c]
            | x :: l => c :: x :: l
            end).
    rewrite IH. reflexivity.
Qed.

Lemma rstrip_sub_spaces_from (b : bool) (s : pystr) :
  rstrip s = s ->
  rstrip (sub_spaces_from b s) = sub_spaces_from b s
  /\ (s <> [] -> sub_spaces_from b s <> []).
Proof.
  revert b; induction s as [|c s IH]; intros b H;
    [split; [reflexivity|congruence]|].
  simpl in H.
  destruct (rstrip s) as [|d r] eqn:E.
  - destruct (isspace c) eqn:Ec; [discriminate|].
    injection H as <-. simpl. rewrite Ec. simpl. rewrite Ec.
    split; [reflexivity|discriminate].
  - injection H as H.
    assert (s <> []) as Hne by (rewrite <- H; discriminate).
    assert (forall b' x, rstrip (x :: sub_spaces_from b' s)
                         = x :: sub_spaces_from b' s) as Hx.
    { intros b' x. destruct (IH b' H) as [I1 I2]. specialize (I2 Hne).
      simpl. rewrite I1.
      destruct (sub_spaces_from b' s); [congruence|reflexivity]. }
    simpl. destruct (isspace c).
    + destruct b.
      * destruct (IH true H) as [I1 I2]. split; [exact I1|].
        intros _. apply I2. exact Hne.
      * split; [apply Hx|discriminate].
    + split; [apply Hx|discriminate].
Qed.

Lemma sub_spaces_from_twice (b' b : bool) (s : pystr) :
  (b' = true -> b = true) ->
  sub_spaces_from b' (sub_spaces_from b s) = sub_spaces_from b s.
Proof.
  revert b' b; induction s as [|c s IH]; intros b' b H; [reflexivity|].
  simpl. destruct (isspace c) eqn:E.
  - destruct b.
    + apply IH. reflexivity.
    + destruct b'; [specialize (H eq_refl); discriminate|].
      simpl. f_equal. apply IH. reflexivity.
  - simpl. rewrite E. f_equal. apply IH. auto.
Qed.

Lemma strip_cleanup (s : pystr) : strip (cleanup s) = cleanup s.
Proof.
  unfold cleanup, sub_spaces, strip.
  rewrite (lstrip_head_ok (sub_spaces_from false _)).
  - apply rstrip_sub_spaces_from. apply rstrip_twice.
  - apply head_ok_sub_spaces_from, head_ok_rstrip, head_ok_lstrip.
Qed.

(** X3: in the normalized rules text the only whitespace character is
    the space (so there is no newline), no two spaces stand side by
    side, and there is none at either end. *)
Theorem normalize_text_tidy (name text : pystr) :
  Forall (fun c => isspace c = true -> c = ch_space)
         (normalize_text name text)
  /\ ~ In ch_newline (normalize_text name text)
  /\ adjacent_spaces (normalize_text name text) = false
  /\ strip (normalize_text name text) = normalize_text name text.
Proof.
  change (normalize_text name text)
    with (cleanup (text_with_placeholder name text)).
  assert (Forall (fun c => isspace c = true -> c = ch_space)
            (cleanup (text_with_placeholder name text))) as H
    by apply sub_spaces_from_only_space.
  split; [exact H|]. split; [|split].
  - intros F. rewrite Forall_forall in H. specialize (H _ F eq_refl).
    discriminate.
  - apply sub_spaces_from_adjacent.
  - apply strip_cleanup.
Qed.

Lemma cleanup_cleanup (u : pystr) : cleanup (cleanup u) = cleanup u.
Proof.
  unfold cleanup at 1. rewrite strip_cleanup.
  unfold cleanup, sub_spaces. apply sub_spaces_from_twice. auto.
Qed.

(** X8: cleaning up the whitespace a second time changes nothing, in
    general and so for the normalized rules text. *)
Theorem cleanup_twice (s : pystr) :
  cleanup (cleanup s) = cleanup s
  /\ forall name text,
       cleanup (normalize_text name text) = normalize_text name text.
Proof.
  pose proof cleanup_cleanup as H.
  split; [apply H|]. intros name text.
  change (normalize_text name text)
    with (cleanup (text_with_placeholder name text)).
  apply H.
Qed.

(** ** Lengths: the abbreviations do not lengthen *)

Lemma lower_length (s : pystr) : List.length (lower s) = List.length s.
Proof. unfold lower. apply length_map. Qed.

Lemma for_items_both_length (d : mapping) (s : pystr) :
  compressing d = true ->
  (List.length (for_items d replace_both s) <= List.length s)%nat.
Proof.
  unfold for_items. revert s.
  induction d as [|[k v] d IH]; intros s H; [simpl; lia|].
  simpl in H. apply andb_true_iff in H as [Hkv Hd].
  apply andb_true_iff in Hkv as [Hle Hne].
  apply Nat.leb_le in Hle. apply negb_true_iff, Nat.eqb_neq in Hne.
  assert (k <> []) as Hk by (intros ->; apply Hne; reflexivity).
  assert (lower k <> []) as Hlk by (destruct k; [congruence|discriminate]).
  simpl. specialize (IH (replace_both k v s) Hd).
  pose proof (replace_length_le k v s Hk Hle) as L1.
  assert (List.length v <= List.length (lower k))%nat as Hle'
    by (rewrite lower_length; exact Hle).
  pose proof (replace_length_le (lower k) v (replace k v s) Hlk Hle') as L2.
  unfold replace_both in IH |- *. lia.
Qed.

Lemma for_items_exact_length (d : mapping) (s : pystr) :
  compressing d = true ->
  (List.length (for_items d replace_exact s) <= List.length s)%nat.
Proof.
  unfold for_items. revert s.
  induction d as [|[k v] d IH]; intros s H; [simpl; lia|].
  simpl in H. apply andb_true_iff in H as [Hkv Hd].
  apply andb_true_iff in Hkv as [Hle Hne].
  apply Nat.leb_le in Hle. apply negb_true_iff, Nat.eqb_neq in Hne.
  assert (k <> []) as Hk by (intros ->; apply Hne; reflexivity).
  simpl. specialize (IH (replace_exact k v s) Hd).
  pose proof (replace_length_le k v s Hk Hle) as L1.
  unfold replace_exact in IH |- *. lia.
Qed.

Lemma sub_parens_from_length (s : pystr) (k : nat) :
  (List.length (sub_parens_from s k) <= List.length s)%nat.
Proof.
  revert k; induction s as [|c s IH]; intros k; [simpl; lia|].
  destruct k as [|k]; simpl.
  - destruct (c =? ch_lparen).
    + destruct (greedy_close s) as [n|].
      * specialize (IH n). lia.
      * specialize (IH 0%nat). simpl. lia.
    + specialize (IH 0%nat). simpl. lia.
  - specialize (IH k). lia.
Qed.

Lemma strip_length (s : pystr) :
  (List.length (strip s) <= List.length s)%nat.
Proof.
  unfold strip.
  destruct (lstrip_suffix s) as [a Ha].
  destruct (rstrip_prefix (lstrip s)) as [b Hb].
  apply (f_equal (@List.length char)) in Ha, Hb.
  rewrite length_app in Ha, Hb. lia.
Qed.

Lemma sub_spaces_from_length (b : bool) (s : pystr) :
  (List.length (sub_spaces_from b s) <= List.length s)%nat.
Proof.
  revert b; induction s as [|c s IH]; intros b; [simpl; lia|].
  simpl. destruct (isspace c).
  - destruct b; [specialize (IH true); lia|].
    specialize (IH true). simpl. lia.
  - specialize (IH false). simpl. lia.
Qed.

Lemma text_without_reminders_length (text : pystr) :
  (List.length (text_without_reminders text) <= List.length text)%nat.
Proof.
  unfold text_without_reminders, sub_parens.
  eapply Nat.le_trans; [apply sub_parens_from_length|].
  eapply Nat.le_trans;
    [apply for_items_exact_length; vm_compute; reflexivity|].
  do 5 (eapply Nat.le_trans;
        [apply for_items_both_length; vm_compute; reflexivity|]).
  apply for_items_both_length. vm_compute. reflexivity.
Qed.

Lemma abbreviations_length_type_name :
  (forall t, List.length (normalize_type t) <= List.length t)%nat
  /\ (forall n, List.length (normalize_name n) <= List.length n)%nat.
Proof.
  split.
  - intros t. unfold normalize_type.
    do 2 (eapply Nat.le_trans;
          [apply for_items_both_length; vm_compute; reflexivity|]).
    apply for_items_both_length. vm_compute. reflexivity.
  - intros n. unfold normalize_name.
    apply for_items_exact_length. vm_compute. reflexivity.
Qed.

(** X9: the type line, the name and the mana cost of a normalized card
    are never longer than those selected, and neither is the rules text
    after the dictionaries and the removal of the reminder text. *)
Theorem abbreviations_not_longer :
  (forall t, List.length (normalize_type t) <= List.length t)%nat
  /\ (forall n, List.length (normalize_name n) <= List.length n)%nat
  /\ (forall m, List.length (cell (normalize_mana_cost m))
                <= List.length (cell m))%nat
  /\ (forall text,
        List.length (text_without_reminders text) <= List.length text)%nat.
Proof.
  destruct abbreviations_length_type_name as [Ht Hn].
  split; [exact Ht|]. split; [exact Hn|]. split.
  - intros [[|c m]|]; [simpl; lia| |simpl; lia].
    unfold normalize_mana_cost, cell.
    apply for_items_exact_length. vm_compute. reflexivity.
  - apply text_without_reminders_length.
Qed.

(** X10: when the name has at least the four characters of the
    placeholder, the normalized rules text is not longer than the text
    selected. *)
Theorem normalize_text_not_longer (name text : pystr) :
  (4 <= List.length name)%nat ->
  (List.length (normalize_text name text) <= List.length text)%nat.
Proof.
  intros H. unfold normalize_text, sub_spaces.
  eapply Nat.le_trans; [apply sub_spaces_from_length|].
  eapply Nat.le_trans; [apply strip_length|].
  change (text_with_placeholder name text)
    with (replace name (py "NAME") (text_without_reminders text)).
  eapply Nat.le_trans; [|apply text_without_reminders_length].
  apply replace_length_le; [|exact H].
  destruct name; [simpl in H; lia|discriminate].
Qed.

(** The name [Tide Pool] in the text of that card. *)
Lemma normalize_text_not_longer_witness :
  (4 <= List.length (name Examples.tide_pool))%nat
  /\ (List.length (normalize_text (name Examples.tide_pool)
                                   (text Examples.tide_pool))
      <= List.length (text Examples.tide_pool))%nat.
Proof.
  assert (4 <= List.length (name Examples.tide_pool))%nat as H
    by (vm_compute; lia).
  split; [exact H|].
  apply (normalize_text_not_longer _ _ H).
Defined.

(** With a shorter name the placeholder can lengthen the text. *)
Example short_name_lengthens :
  normalize_text (py "Opt") (py "Opt") = py "NAME".
Proof. vm_compute. reflexivity. Qed.

(** ** The card loop and [load_mtg_set] *)

Lemma normalize_rarity_ok (r x : pystr) :
  normalize_rarity r = Ok x -> recognized r /\ rarity_code x.
Proof.
  unfold normalize_rarity, RARITY_MAPPING, lookup, recognized, rarity_code.
  destruct (PyStr.eqb r (py "common")) eqn:E1;
    [apply eqb_eq in E1; intros H; injection H as <-; tauto|].
  destruct (PyStr.eqb r (py "uncommon")) eqn:E2;
    [apply eqb_eq in E2; intros H; injection H as <-; tauto|].
  destruct (PyStr.eqb r (py "rare")) eqn:E3;
    [apply eqb_eq in E3; intros H; injection H as <-; tauto|].
  destruct (PyStr.eqb r (py "mythic")) eqn:E4;
    [apply eqb_eq in E4; intros H; injection H as <-; tauto|].
  discriminate.
Qed.

Lemma normalize_card_fields (row c : card) :
  normalize_card row = Ok c -> untouched row c /\ rewritten row c.
Proof.
  unfold normalize_card, bind.
  destruct (normalize_rarity (rarity row)) as [r|e] eqn:E; [|discriminate].
  intros H. injection H as <-.
  unfold untouched, rewritten. cbn. rewrite E. repeat split; reflexivity.
Qed.

Lemma card_loop_rows (rows acc cs : list card) :
  card_loop rows acc = Ok cs ->
  exists cs', cs = acc ++ cs'
              /\ Forall2 (fun row c => normalize_card row = Ok c) rows cs'.
Proof.
  revert acc; induction rows as [|r rows IH]; intros acc H.
  - simpl in H. injection H as <-. exists []. rewrite app_nil_r.
    split; [reflexivity|constructor].
  - simpl in H. destruct (normalize_card r) as [c|e] eqn:E; [|discriminate].
    simpl in H. destruct (IH _ H) as (cs' & -> & F).
    exists (c :: cs'). rewrite <- app_assoc. split; [reflexivity|].
    constructor; assumption.
Qed.

Lemma card_loop_first_error (pre post acc : list card) (row : card) :
  Forall (fun r => recognized (rarity r)) pre ->
  ~ recognized (rarity row) ->
  card_loop (pre ++ row :: post) acc = Raise (KeyError (rarity row)).
Proof.
  intros Hpre Hrow. revert acc.
  induction Hpre as [|r pre Hr _ IH]; intros acc.
  - simpl. destruct (normalize_card_cases row) as [(c & _ & E & _)|[-> _]];
      [|reflexivity].
    rewrite (normalize_rarity_unrecognized _ Hrow) in E. discriminate.
  - simpl. destruct (normalize_card_cases r) as [(c & -> & _)|[_ E]].
    + simpl. apply IH.
    + destruct (normalize_rarity_recognized _ Hr) as [x Hx].
      rewrite Hx in E. discriminate.
Qed.

Lemma card_loop_ok_recognized (rows acc cs : list card) :
  card_loop rows acc = Ok cs ->
  Forall (fun r => recognized (rarity r)) rows.
Proof.
  intros H. destruct (card_loop_rows _ _ _ H) as (cs' & _ & F).
  clear H. induction F as [|r c rows cs'' Hc _ IH]; constructor; [|exact IH].
  apply normalize_card_fields in Hc as [_ (_ & _ & _ & Hr & _)].
  apply normalize_rarity_ok in Hr. tauto.
Qed.

(** The first row that a filter keeps. *)
Lemma filter_first {A : Type} (f : A -> bool) (l : list A) (r : A)
    (rest : list A) :
  filter f l = r :: rest ->
  exists pre post,
    l = pre ++ r :: post /\ Forall (fun x => f x = false) pre
    /\ f r = true.
Proof.
  induction l as [|x l IH]; intros H; [discriminate|].
  simpl in H. destruct (f x) eqn:E.
  - injection H as -> _. exists [], l. repeat split; [constructor|exact E].
  - destruct (IH H) as (pre & post & -> & Hpre & Hr).
    exists (x :: pre), post. repeat split; [constructor|]; assumption.
Qed.

Lemma set_data_bound (db : database) (set_code : pystr) (sd : set_record) :
  fold_left
    (fun _ r => Some {| set_name := sets_name r;
                        release := releaseDate r;
                        set_type := sets_type r |})
    (select_set db set_code) None = Some sd ->
  exists pre r post,
    sets db = pre ++ r :: post
    /\ Forall (fun x => code x <> set_code) pre
    /\ code r = set_code
    /\ sd = {| set_name := sets_name r;
               release := releaseDate r;
               set_type := sets_type r |}.
Proof.
  unfold select_set.
  destruct (filter (fun r => PyStr.eqb (code r) set_code) (sets db))
    as [|r rest] eqn:E; [discriminate|].
  simpl. intros H. injection H as <-.
  destruct (filter_first _ _ _ _ E) as (pre & post & Hs & Hpre & Hr).
  exists pre, r, post. split; [exact Hs|]. split; [|split].
  - eapply Forall_impl; [|exact Hpre]. intros x Hx. apply eqb_neq. exact Hx.
  - apply eqb_eq. exact Hr.
  - reflexivity.
Qed.

(** X5: what [load_mtg_set] returns.  The set record is made of the
    first row of [sets] with the code, whatever rows follow; and there
    is one card per selected row, in the order of the rows, each the
    normalization of its own row, with the other ten columns copied. *)
Theorem load_mtg_set_returns (db : database) (set_code : pystr)
    (sd : set_record) (cs : list card) :
  load_mtg_set db set_code = Ok (sd, cs) ->
  (exists pre r post,
      sets db = pre ++ r :: post
      /\ Forall (fun x => code x <> set_code) pre
      /\ code r = set_code
      /\ sd = {| set_name := sets_name r;
                 release := releaseDate r;
                 set_type := sets_type r |})
  /\ List.length cs = List.length (select_cards db set_code)
  /\ Forall2 (fun row c => normalize_card row = Ok c
                           /\ untouched row c /\ rewritten row c)
             (select_cards db set_code) cs.
Proof.
  unfold load_mtg_set, bind. intros H.
  destruct (card_loop (select_cards db set_code) []) as [cs0|] eqn:E;
    [|discriminate].
  destruct (fold_left _ (select_set db set_code) None) as [sd0|] eqn:F;
    [|discriminate].
  injection H as <- <-.
  destruct (card_loop_rows _ _ _ E) as (cs' & -> & F2). simpl.
  split; [exact (set_data_bound _ _ _ F)|]. split.
  - symmetry. exact (Forall2_length F2).
  - eapply Forall2_impl; [|exact F2].
    intros row c Hc. split; [exact Hc|].
    apply normalize_card_fields. exact Hc.
Qed.

(** The database with two rows for the set code and cards of two
    sets. *)
Lemma load_mtg_set_returns_witness :
  exists sd cs,
    load_mtg_set MoreExamples.db_two_sets (py "DMU") = Ok (sd, cs)
    /\ set_name sd = Some (py "Dominaria United")
    /\ List.map name cs = [py "Opt"; py "IsL Fish Jasconius"]
    /\ List.length cs
       = List.length (select_cards MoreExamples.db_two_sets (py "DMU")).
Proof.
  eexists. eexists. split; [vm_compute; reflexivity|].
  split; [reflexivity|]. split; [reflexivity|].
  eapply (load_mtg_set_returns MoreExamples.db_two_sets (py "DMU")).
  vm_compute. reflexivity.
Defined.

(** ** When the run succeeds, and which exception comes first *)

(** X6: [main] prints something exactly when the API key is in the
    environment, [sets] has a row with the set code, and every selected
    row has its type line, rules text and name (none of them NULL) and
    one of the four rarities. *)
Theorem main_prints_iff (environ : mapping) (db : Sql.database)
    (set_code : pystr) :
  (exists out, Sql.main environ db set_code = Ok out) <->
  (lookup (py "MTG_BOT_OPENAI_API_KEY") environ <> None
   /\ (exists r, In r (Sql.sets db) /\ code r = set_code)
   /\ Forall (fun r => Sql.present r /\ Sql.known_rarity r)
             (Sql.select_cards db set_code)).
Proof.
  split.
  - intros [out H]. apply sql_main_ok_load in H as [Hk [v Hv]].
    apply sql_load_ok_loop in Hv as [Hloop Hset].
    split; [exact Hk|]. split; [|exact (sql_card_loop_ok_inv _ _ _ Hloop)].
    destruct (Sql.select_set db set_code) as [|x l] eqn:E; [congruence|].
    unfold Sql.select_set in E.
    destruct (filter (fun r => PyStr.eqb (code r) set_code) (Sql.sets db))
      as [|y l'] eqn:F; [discriminate|].
    assert (In y (filter (fun r => PyStr.eqb (code r) set_code)
                         (Sql.sets db))) as Hin
      by (rewrite F; left; reflexivity).
    apply filter_In in Hin as [Hin Hy]. apply eqb_eq in Hy.
    exists y. split; assumption.
  - intros (Hkey & (r & Hr & Hcode) & Hrows).
    unfold Sql.main, bind, get_api_key.
    destruct (lookup (py "MTG_BOT_OPENAI_API_KEY") environ);
      [|congruence].
    unfold Sql.load_mtg_set, bind.
    destruct (sql_card_loop_ok _ [] Hrows) as [cs ->].
    destruct (Sql.select_set db set_code) as [|x rest] eqn:F.
    + exfalso.
      apply (proj1 (sql_select_set_empty db set_code) F r Hr Hcode).
    + unfold Sql.select_set in F.
      destruct (filter (fun r => PyStr.eqb (code r) set_code) (Sql.sets db))
        as [|y l]; [discriminate|].
      simpl in F. injection F as <- <-. simpl. eexists. reflexivity.
Qed.

(** The blue card of the set prints; the same database with a creature
    whose rules text is NULL does not. *)
Lemma main_prints_iff_witness :
  (exists out,
      Sql.main Examples.environ (Sql.of_database Examples.db) (py "DMU")
      = Ok out)
  /\ ~ (exists out,
          Sql.main Examples.environ Sql.db_vanilla_special (py "DMU")
          = Ok out).
Proof.
  split.
  - apply (main_prints_iff Examples.environ
             (Sql.of_database Examples.db) (py "DMU")).
    split; [discriminate|]. split.
    + exists Examples.dmu. split; [left; reflexivity|reflexivity].
    + constructor; [|constructor].
      split; [repeat split; discriminate|].
      exists (py "common"). split; [reflexivity|left; reflexivity].
  - intros H.
    apply (main_prints_iff Examples.environ
             Sql.db_vanilla_special (py "DMU")) in H.
    destruct H as (_ & _ & H). inversion H as [|? ? [(_ & Ht & _) _] _].
    apply Ht. reflexivity.
Defined.

(** X7: the exceptions in their order.  Without the API key [main]
    raises the lookup error for it, whatever the database holds.
    Otherwise the first selected row that is not normalized decides the
    exception of [load_mtg_set] and of [main], also when no row of
    [sets] has the code; within a row a NULL type line comes first
    ([AttributeError]), then a NULL rules text ([AttributeError]), then
    a NULL name ([TypeError]), then the rarity ([KeyError]). *)
Theorem first_exception (environ : mapping) (db : Sql.database)
    (set_code : pystr) :
  (lookup (py "MTG_BOT_OPENAI_API_KEY") environ = None ->
   Sql.main environ db set_code
   = Raise (KeyError (py "MTG_BOT_OPENAI_API_KEY")))
  /\ (forall pre r post e,
        Sql.select_cards db set_code = pre ++ r :: post ->
        Forall (fun r' => Sql.present r' /\ Sql.known_rarity r') pre ->
        Sql.row_exception r = Some e ->
        Sql.load_mtg_set db set_code = Raise e
        /\ (lookup (py "MTG_BOT_OPENAI_API_KEY") environ <> None ->
            Sql.main environ db set_code = Raise e)).
Proof.
  split.
  - intros H. unfold Sql.main, bind, get_api_key. rewrite H. reflexivity.
  - intros pre r post e Hsel Hpre He.
    assert (Sql.load_mtg_set db set_code = Raise e) as L.
    { apply sql_load_raises. rewrite Hsel.
      apply sql_card_loop_first; [exact Hpre|].
      apply row_exception_some. exact He. }
    split; [exact L|]. intros Hk. apply sql_main_raises; assumption.
Qed.

(** No row for the set: a card of rarity [special] before a creature
    without rules text, and that creature after a common card. *)
Lemma first_exception_witness :
  Sql.load_mtg_set Sql.db_special_without_set (py "DMU")
  = Raise (KeyError (py "special"))
  /\ Sql.main Examples.environ Sql.db_vanilla_without_set (py "DMU")
     = Raise (AttributeError (py "replace"))
  /\ Sql.main [] Sql.db_vanilla_without_set (py "DMU")
     = Raise (KeyError (py "MTG_BOT_OPENAI_API_KEY")).
Proof.
  assert (Forall (fun r' => Sql.present r' /\ Sql.known_rarity r')
            [Sql.of_card Examples.opt]) as F.
  { constructor; [|constructor]. split; [repeat split; discriminate|].
    exists (py "common"). split; [reflexivity|left; reflexivity]. }
  destruct (first_exception Examples.environ
              Sql.db_special_without_set (py "DMU")) as [_ H1].
  destruct (first_exception Examples.environ
              Sql.db_vanilla_without_set (py "DMU")) as [_ H2].
  destruct (first_exception [] Sql.db_vanilla_without_set (py "DMU"))
    as [H3 _].
  split; [|split].
  - apply (H1 [Sql.of_card Examples.opt] (Sql.of_card Examples.timeshifted)
              [Sql.vanilla (py "common")] _ eq_refl F).
    vm_compute. reflexivity.
  - apply (H2 [Sql.of_card Examples.opt] (Sql.vanilla (py "common")) []
              _ eq_refl F); [reflexivity|discriminate].
  - apply H3. reflexivity.
Defined.

(** *** The rows without NULL

    On a database whose rows have the four columns, the card loop on the
    rows is the card loop on the strings. *)

Lemma normalize_row_of_card (c : card) :
  Sql.normalize_row (Sql.of_card c) = normalize_card c.
Proof. destruct c. reflexivity. Qed.

Lemma card_loop_of_card (rows acc : list card) :
  Sql.card_loop (List.map Sql.of_card rows) acc = card_loop rows acc.
Proof.
  revert acc; induction rows as [|r rows IH]; intros acc; [reflexivity|].
  simpl. rewrite normalize_row_of_card.
  destruct (normalize_card r); simpl; [apply IH|reflexivity].
Qed.

Lemma select_cards_of_database (db : Bot.database) (set_code : pystr) :
  Sql.select_cards (Sql.of_database db) set_code
  = List.map Sql.of_card (select_cards db set_code).
Proof.
  unfold Sql.select_cards, select_cards, Sql.of_database. simpl.
  induction (Bot.cards db) as [|r l IH]; [reflexivity|].
  simpl. destruct (PyStr.eqb (Bot.setCode r) set_code); simpl.
  - destruct (colors (Bot.columns r)) as [u|]; simpl.
    + destruct (PyStr.eqb u (py "U")); simpl; [f_equal|]; exact IH.
    + exact IH.
  - exact IH.
Qed.

Lemma main_of_database (environ : mapping) (db : Bot.database)
    (set_code : pystr) :
  Sql.main environ (Sql.of_database db) set_code
  = main environ db set_code
  /\ Sql.load_mtg_set (Sql.of_database db) set_code
     = load_mtg_set db set_code.
Proof.
  assert (Sql.load_mtg_set (Sql.of_database db) set_code
          = load_mtg_set db set_code) as L.
  { unfold Sql.load_mtg_set, load_mtg_set.
    rewrite select_cards_of_database, card_loop_of_card. reflexivity. }
  split; [|exact L]. unfold Sql.main, main. rewrite L. reflexivity.
Qed.

(** ** The cards that are returned *)

(** X11: every card that [load_mtg_set] returns has the colours [U], a
    rarity among C, U, R, M, no brace in its rules text or its mana
    cost, no parenthetical span in its rules text, and a rules text on
    which the whitespace cleanup changes nothing. *)
Theorem returned_cards_well_formed (db : database) (set_code : pystr)
    (sd : set_record) (cs : list card) :
  load_mtg_set db set_code = Ok (sd, cs) -> Forall well_formed cs.
Proof.
  unfold load_mtg_set, bind. intros H.
  destruct (card_loop (select_cards db set_code) []) as [cs0|] eqn:E;
    [|discriminate].
  destruct (fold_left _ (select_set db set_code) None); [|discriminate].
  injection H as _ <-.
  destruct (card_loop_rows _ _ _ E) as (cs' & -> & F). simpl.
  pose proof (select_cards_blue db set_code) as B. clear E.
  induction F as [|row c rows cs' Hc _ IH]; [constructor|].
  inversion B as [|? ? Hb B']; subst.
  constructor; [|exact (IH B')].
  destruct (normalize_card_fields _ _ Hc)
    as [(_ & Hcol & _) (_ & Ht & _ & Hr & Hm)].
  unfold well_formed. split; [|split; [|split; [|split; [|split]]]].
  - rewrite Hcol. exact Hb.
  - apply normalize_rarity_ok in Hr. tauto.
  - rewrite Ht. split; apply brace_not_in_text; reflexivity.
  - intros m Em. rewrite Hm in Em.
    destruct (mana_cost row) as [m0|]; [|discriminate].
    rewrite normalize_mana_cost_some in Em.
    assert (m = without_braces m0) as -> by congruence.
    apply without_braces_no_brace.
  - rewrite Ht. apply span_not_in_text.
  - rewrite Ht.
    change (normalize_text (name row) (text row))
      with (cleanup (text_with_placeholder (name row) (text row))).
    apply cleanup_cleanup.
Qed.

(** The cards returned for the set of the example database. *)
Lemma returned_cards_well_formed_witness :
  exists sd cs,
    load_mtg_set MoreExamples.db_two_sets (py "DMU") = Ok (sd, cs)
    /\ List.length cs = 2%nat
    /\ Forall well_formed cs.
Proof.
  eexists. eexists. split; [vm_compute; reflexivity|].
  split; [reflexivity|].
  eapply (returned_cards_well_formed MoreExamples.db_two_sets (py "DMU")).
  vm_compute. reflexivity.
Defined.

(** ** The placeholder *)

Lemma starts_with_contains (p s : pystr) :
  starts_with p s = true -> contains p s = true.
Proof. intros H. destruct s; simpl in *; rewrite H; reflexivity. Qed.

Lemma contains_cons_r (p : pystr) (x : char) (r : pystr) :
  contains p r = true -> contains p (x :: r) = true.
Proof. intros H. rewrite contains_cons, H. apply orb_true_r. Qed.

Lemma contains_replace_new (old new s : pystr) :
  old <> [] -> contains old s = true ->
  contains new (replace old new s) = true.
Proof.
  intros Hne. destruct old as [|o old]; [congruence|]. unfold replace.
  induction s as [|c s IH]; intros H; [discriminate|].
  rewrite contains_cons in H. rewrite replace_from_cons_0.
  destruct (starts_with (o :: old) (c :: s)).
  - apply starts_with_contains, starts_with_app.
  - simpl in H. apply contains_cons_r, IH. exact H.
Qed.

Lemma contains_lstrip (p s : pystr) :
  p <> [] -> no_space p = true ->
  contains p s = true -> contains p (lstrip s) = true.
Proof.
  intros Hne Hp. induction s as [|c s IH]; intros H; [exact H|].
  simpl. destruct (isspace c) eqn:E; [|exact H].
  rewrite contains_cons in H. apply orb_true_iff in H as [H|H];
    [|exact (IH H)].
  destruct p as [|q p]; [congruence|].
  simpl in Hp, H. apply andb_true_iff in Hp as [Hq _].
  apply andb_true_iff in H as [H _]. apply N.eqb_eq in H. subst q.
  rewrite E in Hq. discriminate.
Qed.

Lemma starts_with_rstrip (p s : pystr) :
  no_space p = true ->
  starts_with p s = true -> starts_with p (rstrip s) = true.
Proof.
  revert p; induction s as [|c s IH]; intros p Hp H; [exact H|].
  destruct p as [|q p]; [reflexivity|].
  simpl in Hp, H. apply andb_true_iff in Hp as [Hq Hp].
  apply andb_true_iff in H as [H1 H2].
  apply N.eqb_eq in H1. subst q. apply negb_true_iff in Hq.
  specialize (IH p Hp H2). simpl.
  destruct (rstrip s) as [|d r].
  - rewrite Hq. simpl. rewrite N.eqb_refl.
    destruct p; [reflexivity|discriminate].
  - simpl. rewrite N.eqb_refl. exact IH.
Qed.

Lemma contains_rstrip (p s : pystr) :
  p <> [] -> no_space p = true ->
  contains p s = true -> contains p (rstrip s) = true.
Proof.
  intros Hne Hp. induction s as [|c s IH]; intros H; [exact H|].
  rewrite contains_cons in H. apply orb_true_iff in H as [H|H].
  - apply starts_with_contains, starts_with_rstrip; assumption.
  - specialize (IH H). simpl. destruct (rstrip s) as [|d r].
    + rewrite (contains_nonempty_nil p Hne) in IH. discriminate.
    + apply contains_cons_r. exact IH.
Qed.

Lemma starts_with_sub_spaces_from (p s : pystr) (b : bool) :
  no_space p = true ->
  starts_with p s = true -> starts_with p (sub_spaces_from b s) = true.
Proof.
  revert p b; induction s as [|c s IH]; intros p b Hp H; [exact H|].
  destruct p as [|q p]; [reflexivity|].
  simpl in Hp, H. apply andb_true_iff in Hp as [Hq Hp].
  apply andb_true_iff in H as [H1 H2].
  apply N.eqb_eq in H1. subst q. apply negb_true_iff in Hq.
  simpl. rewrite Hq. simpl. rewrite N.eqb_refl. apply IH; assumption.
Qed.

Lemma contains_sub_spaces_from_keeps (p s : pystr) (b : bool) :
  no_space p = true ->
  contains p s = true -> contains p (sub_spaces_from b s) = true.
Proof.
  intros Hp. revert b; induction s as [|c s IH]; intros b H; [exact H|].
  rewrite contains_cons in H. apply orb_true_iff in H as [H|H].
  - apply starts_with_contains, starts_with_sub_spaces_from; assumption.
  - simpl. destruct (isspace c).
    + destruct b; [exact (IH _ H)|]. apply contains_cons_r, IH. exact H.
    + apply contains_cons_r, IH. exact H.
Qed.

Lemma contains_cleanup (p s : pystr) :
  p <> [] -> no_space p = true ->
  contains p s = true -> contains p (cleanup s) = true.
Proof.
  intros Hne Hp H. unfold cleanup, sub_spaces, strip.
  apply contains_sub_spaces_from_keeps; [exact Hp|].
  apply contains_rstrip; [exact Hne|exact Hp|].
  apply contains_lstrip; assumption.
Qed.

(** X12: when the name, not empty, occurs in the rules text as it is
    after the dictionaries and the removal of the reminder text, the
    normalized rules text holds the placeholder [NAME]. *)
Theorem placeholder_put (name text : pystr) :
  name <> [] ->
  contains name (text_without_reminders text) = true ->
  contains (py "NAME") (normalize_text name text) = true.
Proof.
  intros Hne H.
  change (normalize_text name text)
    with (cleanup (replace name (py "NAME") (text_without_reminders text))).
  apply contains_cleanup; [discriminate|reflexivity|].
  apply contains_replace_new; assumption.
Qed.

(** The card [Psionic Blast], whose text begins with its name. *)
Lemma placeholder_put_witness :
  name Examples.timeshifted <> []
  /\ contains (name Examples.timeshifted)
       (text_without_reminders (text Examples.timeshifted)) = true
  /\ contains (py "NAME")
       (normalize_text (name Examples.timeshifted)
                       (text Examples.timeshifted)) = true.
Proof.
  assert (name Examples.timeshifted <> []) as H1 by discriminate.
  assert (contains (name Examples.timeshifted)
            (text_without_reminders (text Examples.timeshifted)) = true)
    as H2 by (vm_compute; reflexivity).
  split; [exact H1|]. split; [exact H2|].
  apply (placeholder_put _ _ H1 H2).
Defined.

(** The dictionaries come before the placeholder: a name that holds a
    key is rewritten in the text first and is then not found, so the
    text keeps the abbreviated name instead of the placeholder. *)
Example abbreviated_name_is_kept :
  normalize_text (name MoreExamples.wall_of_frost)
                 (text MoreExamples.wall_of_frost)
  = py "Defender WN Wa of Frost blocks a CR, tap it.".
Proof. vm_compute. reflexivity. Qed.

(** ** Empty text and empty name *)

Lemma length_zero_nil (s : pystr) : (List.length s <= 0)%nat -> s = [].
Proof. destruct s; simpl; [reflexivity|lia]. Qed.

Lemma starts_with_lstrip (p s : pystr) :
  head_ok p = true -> p <> [] ->
  starts_with p s = true -> starts_with p (lstrip s) = true.
Proof.
  destruct p as [|q p]; [congruence|]. intros Hq _ H.
  destruct s as [|c s]; [exact H|].
  simpl in Hq, H. apply andb_true_iff in H as [H1 H2].
  apply N.eqb_eq in H1. subst q. apply negb_true_iff in Hq.
  simpl lstrip. rewrite Hq. simpl. rewrite N.eqb_refl. exact H2.
Qed.

(** X13: the empty rules text stays empty under a name that is not
    empty, and so do the empty type line and the empty name; under the
    empty name the placeholder is put before every character and at the
    end, so the normalized text begins with [NAME], and is [NAME] for
    the empty text. *)
Theorem empty_text_and_name :
  (forall name, name <> [] -> normalize_text name [] = [])
  /\ normalize_type [] = []
  /\ normalize_name [] = []
  /\ normalize_text [] [] = py "NAME"
  /\ (forall text,
        starts_with (py "NAME") (normalize_text [] text) = true).
Proof.
  split; [|split; [|split; [|split]]].
  - intros name Hne.
    change (normalize_text name [])
      with (cleanup (replace name (py "NAME") (text_without_reminders []))).
    rewrite (length_zero_nil _ (text_without_reminders_length [])).
    destruct name; [congruence|reflexivity].
  - apply length_zero_nil.
    destruct abbreviations_length_type_name as [H _]. apply H.
  - apply length_zero_nil.
    destruct abbreviations_length_type_name as [_ H]. apply H.
  - change (normalize_text [] [])
      with (cleanup (replace [] (py "NAME") (text_without_reminders []))).
    rewrite (length_zero_nil _ (text_without_reminders_length [])).
    vm_compute. reflexivity.
  - intros text.
    change (normalize_text [] text)
      with (cleanup (replace [] (py "NAME") (text_without_reminders text))).
    unfold cleanup, sub_spaces, strip, replace.
    apply starts_with_sub_spaces_from; [reflexivity|].
    apply starts_with_rstrip; [reflexivity|].
    apply starts_with_lstrip; [reflexivity|discriminate|].
    apply starts_with_app.
Qed.

(** The name [Opt]. *)
Lemma empty_text_and_name_witness :
  py "Opt" <> [] /\ normalize_text (py "Opt") [] = [].
Proof.
  assert (py "Opt" <> []) as H by discriminate.
  split; [exact H|].
  destruct empty_text_and_name as [E _]. exact (E _ H).
Defined.

(** ** C9: running the rewriting again *)

Lemma for_items_app (d1 d2 : mapping)
    (body : pystr -> pystr -> pystr -> pystr) (s : pystr) :
  for_items (d1 ++ d2) body s = for_items d2 body (for_items d1 body s).
Proof. unfold for_items. apply fold_left_app. Qed.

Lemma normalize_type_tables (t : pystr) :
  normalize_type t = for_items type_tables replace_both t.
Proof.
  unfold normalize_type, type_tables. rewrite !for_items_app. reflexivity.
Qed.

Lemma shrinking_compressing (d : mapping) :
  shrinking d = true -> compressing d = true.
Proof.
  unfold shrinking, compressing. induction d as [|[k v] d IH]; intros H;
    [reflexivity|].
  simpl in H |- *. apply andb_true_iff in H as [Hk Hd].
  rewrite (IH Hd), andb_true_r. apply Nat.ltb_lt in Hk.
  apply andb_true_iff. split.
  - apply Nat.leb_le. lia.
  - apply negb_true_iff, Nat.eqb_neq. lia.
Qed.

Lemma both_absent (d : mapping) (s : pystr) :
  free_of_keys2 d s = true -> for_items d replace_both s = s.
Proof.
  unfold for_items. induction d as [|[k v] d IH]; intros H; [reflexivity|].
  simpl in H. apply andb_true_iff in H as [Hk Hd].
  apply andb_true_iff in Hk as [H1 H2]. apply negb_true_iff in H1, H2.
  simpl. unfold replace_both at 2.
  rewrite (replace_absent _ _ _ H1), (replace_absent _ _ _ H2).
  apply IH. exact Hd.
Qed.

Lemma both_length_lt (d : mapping) (s : pystr) :
  shrinking d = true -> free_of_keys2 d s = false ->
  (List.length (for_items d replace_both s) < List.length s)%nat.
Proof.
  revert s. induction d as [|[k v] d IH]; intros s H F; [discriminate|].
  simpl in H, F. apply andb_true_iff in H as [Hk Hd].
  apply Nat.ltb_lt in Hk.
  change (for_items ((k, v) :: d) replace_both s)
    with (for_items d replace_both (replace_both k v s)).
  pose proof (for_items_both_length d (replace_both k v s)
                (shrinking_compressing d Hd)) as Lrest.
  assert (lower k <> []) as Hlk by (destruct k; [simpl in Hk; lia|discriminate]).
  assert (List.length v < List.length (lower k))%nat as Hk'
    by (rewrite lower_length; exact Hk).
  unfold replace_both in *.
  destruct (contains k s) eqn:E1.
  - pose proof (replace_length_lt k v s Hk E1).
    pose proof (replace_length_le (lower k) v (replace k v s) Hlk).
    lia.
  - rewrite (replace_absent _ _ _ E1) in *.
    destruct (contains (lower k) s) eqn:E2.
    + pose proof (replace_length_lt (lower k) v s Hk' E2). lia.
    + rewrite (replace_absent _ _ _ E2) in *. simpl in F.
      apply IH; assumption.
Qed.

Lemma both_fixed_iff (d : mapping) (s : pystr) :
  shrinking d = true ->
  (for_items d replace_both s = s <-> free_of_keys2 d s = true).
Proof.
  intros Hd. split; [|apply both_absent].
  intros H. destruct (free_of_keys2 d s) eqn:F; [reflexivity|].
  pose proof (both_length_lt d s Hd F) as L. rewrite H in L. lia.
Qed.

Lemma no_span_sub_parens (s : pystr) :
  has_span s = false -> sub_parens s = s.
Proof.
  unfold sub_parens. induction s as [|c s IH]; intros H; [reflexivity|].
  simpl in H. apply orb_false_iff in H as [H1 H2].
  simpl. rewrite (IH H2).
  destruct (c =? ch_lparen) eqn:E; [|reflexivity].
  simpl in H1. rewrite greedy_close_none; [reflexivity|].
  apply existsb_eqb_false. exact H1.
Qed.

Lemma no_brace_without_braces (s : pystr) :
  no_brace s -> without_braces s = s.
Proof.
  unfold without_braces. intros [Hl Hr].
  induction s as [|c s IH]; [reflexivity|]. cbn [filter].
  destruct (is_brace c) eqn:E.
  - exfalso. unfold is_brace in E. apply orb_true_iff in E as [E|E];
      apply N.eqb_eq in E; subst c; [apply Hl|apply Hr]; left; reflexivity.
  - cbn [negb]. f_equal. apply IH.
    + intros F; apply Hl; right; exact F.
    + intros F; apply Hr; right; exact F.
Qed.

(** The dictionaries of the rules text are the newline pair and then
    pairs whose code is shorter than the key. *)
Lemma text_tables_passes (s : pystr) :
  ~ In ch_newline s ->
  for_items NUMBER_MAPPING replace_both
    (for_items KEYWORD_MAPPING replace_both
      (for_items LAND_MAPPING replace_both
        (for_items SUB_TYPE_MAPPING replace_both
          (for_items SUPER_TYPE_MAPPING replace_both
            (for_items TEXT_MAPPING replace_both s)))))
  = for_items (tl text_tables) replace_both s
  /\ free_of_keys2 text_tables s = free_of_keys2 (tl text_tables) s.
Proof.
  intros Hn.
  assert (contains [ch_newline] s = false) as Hc.
  { destruct (contains [ch_newline] s) eqn:E; [|reflexivity].
    apply contains_iff in E as (a & b & ->). exfalso. apply Hn.
    apply in_or_app. right. left. reflexivity. }
  split.
  - rewrite <- !for_items_app.
    change (TEXT_MAPPING ++ SUPER_TYPE_MAPPING ++ SUB_TYPE_MAPPING
            ++ LAND_MAPPING ++ KEYWORD_MAPPING ++ NUMBER_MAPPING)
      with text_tables.
    change (for_items text_tables replace_both s)
      with (for_items (tl text_tables) replace_both
              (replace (lower [ch_newline]) (py " ")
                 (replace [ch_newline] (py " ") s))).
    rewrite (replace_absent _ _ _ Hc).
    change (lower [ch_newline]) with [ch_newline].
    rewrite (replace_absent _ _ _ Hc). reflexivity.
  - change (free_of_keys2 text_tables s)
      with (negb (contains [ch_newline] s)
            && negb (contains (lower [ch_newline]) s)
            && free_of_keys2 (tl text_tables) s).
    change (lower [ch_newline]) with [ch_newline].
    rewrite Hc. reflexivity.
Qed.

Lemma text_without_reminders_fixed (s : pystr) :
  ~ In ch_newline s -> no_brace s -> has_span s = false ->
  (text_without_reminders s = s <-> free_of_keys2 text_tables s = true).
Proof.
  intros Hn Hb Hs.
  destruct (text_tables_passes s Hn) as [Hpass Hfree].
  assert (shrinking (tl text_tables) = true) as Hsh
    by (vm_compute; reflexivity).
  rewrite Hfree. split.
  - intros H. destruct (free_of_keys2 (tl text_tables) s) eqn:F;
      [reflexivity|].
    pose proof (both_length_lt _ s Hsh F) as L.
    rewrite <- Hpass in L.
    assert (List.length (text_without_reminders s) < List.length s)%nat.
    { unfold text_without_reminders, sub_parens.
      eapply Nat.le_lt_trans; [apply sub_parens_from_length|].
      eapply Nat.le_lt_trans;
        [apply for_items_exact_length; vm_compute; reflexivity|].
      exact L. }
    rewrite H in *. lia.
  - intros F. unfold text_without_reminders.
    rewrite Hpass, (both_absent _ _ F), strip_braces_filter.
    rewrite (no_brace_without_braces s Hb).
    apply no_span_sub_parens. exact Hs.
Qed.

(** C9, as stated, fails on the rules text: the text of [Rattlechains]
    is normalized with [Rat] turned into [Ra] before a [t], which makes
    the key [Rat] again, and a second run of the statements over the
    text rewrites it once more. *)
Lemma C9_text_rewritten_again :
  exists c,
    normalize_card rattlechains = Ok c
    /\ text c
       = py "Flash FLY When Ratlechains ETB, TR Spirit gains hexproof until EOT."
    /\ normalize_text (name c) (text c)
       = py "Flash FLY When Ralechains ETB, TR Spirit gains hexproof until EOT."
    /\ normalize_text (name c) (text c) <> text c.
Proof.
  eexists. split; [reflexivity|]. split; [vm_compute; reflexivity|].
  split; [vm_compute; reflexivity|]. vm_compute. discriminate.
Qed.

(** The same on a type line. *)
Example normalize_type_twice :
  normalize_type (py "Creaturereature") = py "Creature"
  /\ normalize_type (py "Creature") = py "C".
Proof. split; vm_compute; reflexivity. Qed.

(** C9, amended: no key of any table, as written or in lowercase,
    occurs in a code of any table.  On an already normalized card the
    statements over the type line rewrite nothing exactly when the type
    line holds no key of their tables, as written or in lowercase; the
    dictionaries and the reminder statement over the rules text rewrite
    nothing exactly when the text holds no key of theirs, and then the
    whole rewriting of the text changes nothing unless the text holds
    the name; the name is kept exactly when it holds no Land key; the
    mana cost is never changed again.  A normalized value can hold a
    key, since a code and the characters next to it can make one, so the
    rewriting is not idempotent in general; and the routine as a whole
    raises the lookup error for the rarity, which is a code by then. *)
Theorem C9_second_run_rewrites (row c : card) :
  normalize_card row = Ok c ->
  codes_free_of_keys = true
  /\ (normalize_type (card_type c) = card_type c
      <-> free_of_keys2 type_tables (card_type c) = true)
  /\ (text_without_reminders (text c) = text c
      <-> free_of_keys2 text_tables (text c) = true)
  /\ (free_of_keys2 text_tables (text c) = true ->
      contains (name c) (text c) = false ->
      normalize_text (name c) (text c) = text c)
  /\ (normalize_name (name c) = name c
      <-> free_of_keys LAND_MAPPING (name c) = true)
  /\ normalize_mana_cost (mana_cost c) = mana_cost c
  /\ normalize_card c = Raise (KeyError (rarity c)).
Proof.
  intros H.
  destruct (normalize_card_fields row c H)
    as [_ (_ & Ht & _ & Hr & Hm)].
  assert (~ In ch_newline (text c)) as Hn.
  { rewrite Ht.
    change (normalize_text (name row) (text row))
      with (cleanup (text_with_placeholder (name row) (text row))).
    intros F.
    pose proof (sub_spaces_from_only_space false
                  (strip (text_with_placeholder (name row) (text row))))
      as A.
    rewrite Forall_forall in A. specialize (A _ F eq_refl).
    discriminate. }
  assert (no_brace (text c)) as Hb
    by (rewrite Ht; split; apply brace_not_in_text; reflexivity).
  assert (has_span (text c) = false) as Hs
    by (rewrite Ht; apply span_not_in_text).
  pose proof (text_without_reminders_fixed (text c) Hn Hb Hs) as Hfix.
  split; [vm_compute; reflexivity|].
  split; [|split; [exact Hfix|split; [|split; [|split]]]].
  - rewrite normalize_type_tables. apply both_fixed_iff.
    vm_compute. reflexivity.
  - intros F Hname.
    change (normalize_text (name c) (text c))
      with (cleanup (replace (name c) (py "NAME")
                       (text_without_reminders (text c)))).
    rewrite (proj2 Hfix F), (replace_absent _ _ _ Hname).
    rewrite Ht.
    change (normalize_text (name row) (text row))
      with (cleanup (text_with_placeholder (name row) (text row))).
    apply cleanup_cleanup.
  - apply normalize_name_fixed.
  - rewrite Hm. destruct (mana_cost row) as [m|]; [|reflexivity].
    rewrite !normalize_mana_cost_some.
    rewrite (no_brace_without_braces _ (without_braces_no_brace m)).
    reflexivity.
  - apply normalize_rarity_code in Hr.
    destruct (normalize_card_cases c) as [(c2 & _ & Hr2 & _)|[E2 _]];
      [|exact E2].
    rewrite Hr in Hr2. discriminate.
Qed.

(** The card [Opt], whose normalized text and type line hold no key,
    and the card [Rattlechains], whose normalized text holds one. *)
Lemma C9_second_run_rewrites_witness :
  (exists c,
      normalize_card Examples.opt = Ok c
      /\ normalize_type (card_type c) = card_type c
      /\ normalize_text (name c) (text c) = text c
      /\ normalize_card c = Raise (KeyError (py "C")))
  /\ (exists c,
        normalize_card rattlechains = Ok c
        /\ free_of_keys2 text_tables (text c) = false
        /\ text_without_reminders (text c) <> text c).
Proof.
  split.
  - eexists. split; [reflexivity|].
    destruct (C9_second_run_rewrites Examples.opt _ eq_refl)
      as (_ & Hty & _ & Htx & _ & _ & Hr).
    split; [apply Hty; vm_compute; reflexivity|].
    split; [apply Htx; vm_compute; reflexivity|exact Hr].
  - eexists. split; [reflexivity|].
    split; [vm_compute; reflexivity|].
    intros E.
    apply (C9_second_run_rewrites rattlechains _ eq_refl) in E.
    vm_compute in E. discriminate.
Defined.
